(** * Cursor pagination for mongoose models: the page assembler and the
    two paged operations, embedded from [src/response.ts] and
    [src/index.ts]. *)

From Stdlib Require Import ZArith String Ascii List Bool Lia DecimalString.
From stdpp Require Import base option list gmap strings.

Local Open Scope string_scope.
Set Warnings "-register-all".

(** * JavaScript values *)

Module JS.

(** A JavaScript [number] as the pagination code uses it: a document
    count or limit, or [NaN].  [undefined] is the [None] of an
    [option JSNumber]. *)
Inductive JSNumber : Type :=
| JNaN
| JNum (z : Z).

(** [n + 1] *)
Definition succ (n : option JSNumber) : JSNumber :=
  match n with
  | Some (JNum z) => JNum (z + 1)
  | Some JNaN | None => JNaN
  end.

(** [isNaN(n)]: [undefined] converts to [NaN]. *)
Definition isNaN (n : option JSNumber) : bool :=
  match n with
  | Some (JNum _) => false
  | Some JNaN | None => true
  end.

(** [n < 0] *)
Definition ltZero (n : option JSNumber) : bool :=
  match n with
  | Some (JNum z) => (z <? 0)%Z
  | Some JNaN | None => false
  end.

(** [n === 0] *)
Definition isZero (n : option JSNumber) : bool :=
  match n with
  | Some (JNum z) => (z =? 0)%Z
  | Some JNaN | None => false
  end.

(** [len > n] for an array length [len] *)
Definition lengthGt (len : nat) (n : option JSNumber) : bool :=
  match n with
  | Some (JNum z) => (z <? Z.of_nat len)%Z
  | Some JNaN | None => false
  end.

(** Truthiness of a number ([0], [NaN] and [undefined] are falsy), of a
    string (the empty string and [undefined] are falsy) and of an
    optional boolean flag. *)
Definition truthyNum (n : option JSNumber) : bool :=
  match n with
  | Some (JNum z) => negb (z =? 0)%Z
  | Some JNaN | None => false
  end.

Definition truthyStr (s : option string) : bool :=
  match s with
  | Some EmptyString | None => false
  | Some (String _ _) => true
  end.

Definition truthyFlag (b : option bool) : bool :=
  match b with
  | Some true => true
  | Some false | None => false
  end.

(** The values a document field holds. *)
Inductive Value : Type :=
| VUndefined
| VNull
| VBool (b : bool)
| VInt (z : Z)
| VDouble (bits : N)
| VString (s : string)
| VDate (ms : Z)
| VObjectId (bytes : list Byte.byte)
| VObject (fields : list (string * Value))
| VArray (items : list Value).

(** A document is an object: its own properties in order. *)
Definition Doc : Type := list (string * Value).

(** What a property read finds when the value has no own property of that
    name: the built-in properties of primitives (a string's [length]),
    what objects and arrays inherit through their prototype chain
    ([constructor], [toString]) and getters such as the virtuals of a
    mongoose document; [undefined] when there is none.  It depends on the
    runtime and the schema, not on the plugin. *)
Class ObjectModel : Type := {
  inherited : Value -> string -> Value;
}.

(** The own property [k] of an object, if it has one. *)
Fixpoint ownField (k : string) (fields : list (string * Value)) : option Value :=
  match fields with
  | [] => None
  | (k', v) :: rest => if String.eqb k k' then Some v else ownField k rest
  end.

(** The array index a property key stands for: its canonical decimal
    spelling only ([0], [1], ..., not [01]). *)
Definition arrayIndex (p : string) : option nat :=
  match NilEmpty.uint_of_string p with
  | Some u =>
      let n := Nat.of_uint u in
      if String.eqb (NilEmpty.string_of_uint (Nat.to_uint n)) p
      then Some n else None
  | None => None
  end.

(** [val[p]] on a value that is neither [null] nor [undefined]: an own
    property (a field of an object; an element or the [length] of an
    array) if there is one, otherwise what is inherited. *)
Definition getProp `{ObjectModel} (v : Value) (p : string) : Value :=
  match v with
  | VObject fields =>
      match ownField p fields with
      | Some x => x
      | None => inherited v p
      end
  | VArray items =>
      match arrayIndex p with
      | Some i =>
          match nth_error items i with
          | Some x => x
          | None => inherited v p
          end
      | None =>
          if String.eqb p "length" then VInt (Z.of_nat (length items))
          else inherited v p
      end
  | _ => inherited v p
  end.

(** Ramda's [R.path(pathAr, obj)] for string path elements: walk the path,
    giving [undefined] as soon as the current value is [null] or
    [undefined]. *)
Fixpoint path `{ObjectModel} (pathAr : list string) (val : Value) : Value :=
  match pathAr with
  | [] => val
  | p :: rest =>
      match val with
      | VUndefined | VNull => VUndefined
      | _ => path rest (getProp val p)
      end
  end.

(** [s.split(c)] for a one-character separator. *)
Fixpoint split (c : ascii) (s : string) : list string :=
  match s with
  | EmptyString => [EmptyString]
  | String a s' =>
      if Ascii.eqb a c then EmptyString :: split c s'
      else match split c s' with
           | [] => [String a EmptyString]
           | h :: t => String a h :: t
           end
  end.

(** What a JavaScript function can throw here. *)
Inductive Exn : Type :=
| TypeError
| MalformedCursor.

Inductive Outcome (A : Type) : Type :=
| Ok (a : A)
| Throw (e : Exn).
Arguments Ok {A} a.
Arguments Throw {A} e.

End JS.
Export JS.

(** * Types of the plugin ([src/types.ts], [src/index.ts]) *)

Module Types.

Inductive SortDirection : Type := Ascending | Descending.

(** [SortOptions]: field path to direction, in [Object.keys] order. *)
Definition SortOptions : Type := list (string * SortDirection).

Record IPaginateOptions : Type := {
  limit : option JSNumber;
  sortOptions : option SortOptions;
  next : option string;
  previous : option string;
}.

Definition setLimit (n : option JSNumber) (o : IPaginateOptions) : IPaginateOptions :=
  {| limit := n; sortOptions := sortOptions o; next := next o; previous := previous o |}.

Record IPluginOptions : Type := {
  dontReturnTotalDocs : option bool;
  dontAllowUnlimitedResults : option bool;
  defaultLimit : option JSNumber;
}.

(** Arrays live in the heap; a result refers to its [docs] array.  The
    result's [next] and [previous] are [next_] and [previous_] here, the
    plain names being those of the request's fields. *)
Definition loc : Type := positive.

Record IPaginateResult : Type := {
  docs : loc;
  hasPrevious : bool;
  hasNext : bool;
  next_ : option string;
  previous_ : option string;
  totalDocs : option Z;
}.

End Types.
Export Types.

(** * The heap of arrays and the effects of a call *)

Module Effects.

(** What the opaque cursor codec of [src/utils/bsonUrlEncoding.ts] offers. *)
Class CursorCodec : Type := {
  encode : list Value -> string;
  decode : string -> Outcome (list Value);
}.

(** The calls a paged operation makes on its collaborators, and its one
    write to the caller's options object, in program order. *)
Inductive Event {Request : Type} : Type :=
| EvStore (r : Request)
| EvSetLimit (n : option JSNumber).
Arguments Event Request : clear implicits.

Record World {Request : Type} : Type := {
  arrays : gmap loc (list Doc);
  events : list (Event Request);
}.
Arguments World Request : clear implicits.

Section Monad.
Context {Request : Type}.

(** A computation reads and updates the world, then returns or throws. *)
Definition M (A : Type) : Type := World Request -> Outcome A * World Request.

Definition ret {A} (a : A) : M A := fun w => (Ok a, w).

Definition bind {A B} (m : M A) (k : A -> M B) : M B :=
  fun w =>
    match m w with
    | (Ok a, w') => k a w'
    | (Throw e, w') => (Throw e, w')
    end.

Definition throw {A} (e : Exn) : M A := fun w => (Throw e, w).

Definition liftOutcome {A} (o : Outcome A) : M A := fun w => (o, w).

Definition emit (e : Event Request) : M unit :=
  fun w => (Ok tt, {| arrays := arrays w; events := events w ++ [e] |}).

(** The contents of the array at [l]. *)
Definition contents (w : World Request) (l : loc) : list Doc :=
  default [] (arrays w !! l).

Definition update (l : loc) (f : list Doc -> list Doc) : M unit :=
  fun w => (Ok tt, {| arrays := <[l := f (contents w l)]> (arrays w);
                      events := events w |}).

(** A fresh array holding [ds], as a store reply is. *)
Definition alloc (ds : list Doc) : M loc :=
  fun w => let l := fresh (dom (arrays w)) in
           (Ok l, {| arrays := <[l := ds]> (arrays w); events := events w |}).

(** [a.length] *)
Definition arrayLength (l : loc) : M nat :=
  fun w => (Ok (length (contents w l)), w).

(** [a.pop()], its result dropped: on an empty array nothing happens. *)
Definition arrayPop (l : loc) : M unit := update l (fun a => removelast a).

(** [a.reverse()]: reverses in place and returns the same array. *)
Definition arrayReverse (l : loc) : M loc :=
  bind (update l (fun a => rev a)) (fun _ => ret l).

(** [a[i]]: [undefined], here [None], outside the array. *)
Definition arrayGet (l : loc) (i : Z) : M (option Doc) :=
  fun w => (Ok (if (i <? 0)%Z then None else contents w l !! Z.to_nat i), w).

End Monad.

Declare Scope js_scope.
Delimit Scope js_scope with js.
Notation "x <- m ;; k" := (bind m (fun x => k))
  (at level 62, m at next level, right associativity) : js_scope.
Notation "m ;;; k" := (bind m (fun _ => k))
  (at level 62, right associativity) : js_scope.

End Effects.
Export Effects.

(** * [src/response.ts] *)

Module Response.
Section Response.
Context `{ObjectModel} `{CursorCodec} {Request : Type}.
Local Open Scope js_scope.

(** The value tuple of [prepareCursor]: the argument it hands to
    [bsonUrlEncoding.encode]. *)
Definition cursorValues (doc : Doc) (sortOptions : SortOptions) : list Value :=
  let keysExceptId :=
    List.filter (fun key => negb (String.eqb key "_id")) (map fst sortOptions) in
  let values := map (fun key => path (split "." key) (VObject doc)) keysExceptId in
  values ++ [getProp (VObject doc) "_id"].

(** [prepareCursor(doc, sortOptions = {})]: [doc] is [undefined] when
    [prepareResponse] read past the array, and [doc._id] then throws. *)
Definition prepareCursor (doc : option Doc) (sortOptions : option SortOptions)
  : Outcome string :=
  match doc with
  | None => Throw TypeError
  | Some d => Ok (encode (cursorValues d (default [] sortOptions)))
  end.

Definition prepareResponse (_docs : loc) (options : IPaginateOptions)
    (totalDocs : option Z) : M (Request := Request) IPaginateResult :=
  len <- arrayLength _docs ;;
  let hasMore := truthyNum (limit options) && lengthGt len (limit options) in
  (if hasMore then arrayPop _docs else ret tt) ;;;
  docs <- (if truthyStr (previous options) then arrayReverse _docs else ret _docs) ;;
  let hasPrevious :=
    if truthyStr (next options) || (truthyStr (previous options) && hasMore)
    then true else false in
  let hasNext :=
    if truthyStr (previous options) || hasMore then true else false in
  next <- (if hasNext
           then n <- arrayLength docs ;;
                d <- arrayGet docs (Z.of_nat n - 1) ;;
                c <- liftOutcome (prepareCursor d (sortOptions options)) ;;
                ret (Some c)
           else ret None) ;;
  previous <- (if hasPrevious
               then d <- arrayGet docs 0 ;;
                    c <- liftOutcome (prepareCursor d (sortOptions options)) ;;
                    ret (Some c)
               else ret None) ;;
  ret {| docs := docs;
         hasPrevious := hasPrevious;
         hasNext := hasNext;
         next_ := next;
         previous_ := previous;
         totalDocs := totalDocs |}.

End Response.
End Response.
Export Response.

(** * [src/index.ts] *)

Module Index.

(** The mongoose model the plugin is installed on (the [this] of both
    operations).  Filters, projections, sort orders, populate options and
    the stages of a caller's pipeline are opaque to the plugin. *)
Class Model : Type := {
  Filter : Type;
  Projection : Type;
  Populate : Type;
  Sort : Type;
  UserStage : Type;
  (** [{}] *)
  emptyFilter : Filter;
  (** [Object.keys(filter)] *)
  keys : Filter -> list string;
  (** [[]] as populate options *)
  noPopulate : Populate;
}.

(** [{ $and: [cursor, base] }] *)
Record FindQuery `{Model} : Type := { andCursor : Filter; andBase : Filter }.

Inductive Stage `{Model} : Type :=
| StSort (s : Sort)
| StUser (u : UserStage)
| StMatch (q : Filter)
| StLimit (n : JSNumber)
| StCount (name : string)
| StFacet (results : list Stage) (totalCount : list Stage).

(** The requests sent to the store. *)
Inductive Request `{Model} : Type :=
| ReqFind (query : FindQuery) (projection : option Projection) (sort : Sort)
    (limit : JSNumber) (populate : Populate)
| ReqCountDocuments (query : option Filter)
| ReqAggregate (pipeline : list Stage).

(** The one document a [$facet] stage yields: the documents of the
    [results] facet and those of the [totalCount] facet, each holding a
    [count] ([$count] yields none when it counts nothing). *)
Record FacetDoc : Type := {
  results : list Doc;
  totalCount : list Z;
}.

(** What [exec()] of the faceted aggregate resolves to.  An aggregate
    resolves to the array of the documents its last stage yields, so to
    [FacetArray] of the one facet document; the source declares the facet
    document itself, [FacetDeclared], and reads [results] and [totalCount]
    off the reply. *)
Inductive FacetReply : Type :=
| FacetArray (items : list FacetDoc)
| FacetDeclared (reply : FacetDoc).

(** What the store answers: [find(...)...] and a plain [aggregate] give an
    array of documents, [countDocuments] a number, and the faceted
    aggregate a [FacetReply]. *)
Class Store `{Model} : Type := {
  find : FindQuery -> option Projection -> Sort -> JSNumber -> Populate -> list Doc;
  countDocuments : option Filter -> Z;
  aggregate : list Stage -> list Doc;
  aggregateFacet : list Stage -> FacetReply;
}.

(** [src/query.ts], of which only the two imported signatures are known:
    [generateCursorQuery] decodes the cursor and may throw. *)
Class Query `{Model} : Type := {
  generateCursorQuery : IPaginateOptions -> Outcome Filter;
  generateSort : IPaginateOptions -> Sort;
}.

Section Plugin.
Context `{ObjectModel} `{CursorCodec} `{Store} `{!Query}.
Variable pluginOptions : option IPluginOptions.
Local Open Scope js_scope.

(** The faceted branch of [aggregatePaged] once the reply is there:
    [docs = totalDocsAggregate.results], then
    [totalDocs = totalDocsAggregate.totalCount[0].count], then the page is
    assembled.  On an array [results] and [totalCount] are [undefined], and
    [totalCount[0]] throws; on a facet document without a count
    [totalCount[0]] is [undefined] and [.count] throws. *)
Definition assembleFacet (options : IPaginateOptions)
    (totalDocsAggregate : FacetReply) : M (Request := Request) IPaginateResult :=
  match totalDocsAggregate with
  | FacetArray _ => throw TypeError
  | FacetDeclared reply =>
      docs <- alloc (results reply) ;;
      match totalCount reply with
      | [] => throw TypeError
      | count :: _ => prepareResponse docs options (Some count)
      end
  end.

(** [pluginOptions && pluginOptions.flag], for its truthiness *)
Definition pluginFlag (flag : IPluginOptions -> option bool) : bool :=
  match pluginOptions with
  | Some p => truthyFlag (flag p)
  | None => false
  end.

(** [pluginOptions && pluginOptions.defaultLimit ? pluginOptions.defaultLimit : 10] *)
Definition defaultLimitOf : option JSNumber :=
  match pluginOptions with
  | Some p => if truthyNum (defaultLimit p) then defaultLimit p else Some (JNum 10)
  | None => Some (JNum 10)
  end.

Definition useDefaultLimit (options : IPaginateOptions) : bool :=
  isNaN (limit options) || ltZero (limit options) ||
  (isZero (limit options) && pluginFlag dontAllowUnlimitedResults).

Definition unlimited (options : IPaginateOptions) : bool :=
  isZero (limit options) && negb (pluginFlag dontAllowUnlimitedResults).

(** [options.limit = useDefaultLimit ? defaultLimit : options.limit] *)
Definition assignLimit (options : IPaginateOptions) : M (Request := Request) IPaginateOptions :=
  let l := if useDefaultLimit options then defaultLimitOf else limit options in
  emit (EvSetLimit l) ;;;
  ret (setLimit l options).

Definition findPaged (options : IPaginateOptions) (_query : option Filter)
    (_projection : option Projection) (_populate : option Populate)
  : M (Request := Request) IPaginateResult :=
  let sort := generateSort options in
  let unlimited := unlimited options in
  options <- assignLimit options ;;
  cursorQuery <- liftOutcome (generateCursorQuery options) ;;
  let query := {| andCursor := cursorQuery; andBase := default emptyFilter _query |} in
  let fetchLimit := if unlimited then JNum 0 else succ (limit options) in
  let populate := default noPopulate _populate in
  emit (EvStore (ReqFind query _projection sort fetchLimit populate)) ;;;
  docs <- alloc (find query _projection sort fetchLimit populate) ;;
  if pluginFlag dontReturnTotalDocs
  then prepareResponse docs options None
  else
    emit (EvStore (ReqCountDocuments _query)) ;;;
    prepareResponse docs options (Some (countDocuments _query)).

Definition aggregatePaged (options : IPaginateOptions)
    (_pipeline : option (list UserStage))
  : M (Request := Request) IPaginateResult :=
  let unlimited := unlimited options in
  let countDocs := pluginFlag dontReturnTotalDocs in
  match_ <- liftOutcome (generateCursorQuery options) ;;
  let shouldSkip := (0 <? length (keys match_))%nat in
  let limit := if unlimited then JNum 0 else succ (limit options) in
  let sort := generateSort options in
  options <- assignLimit options ;;
  let skip := if shouldSkip then [StMatch match_] else [] in
  if countDocs
  then
    stages <- match _pipeline with
              | Some stages => ret stages
              | None => throw TypeError
              end ;;
    let newPipeline :=
      ([StSort sort] ++ map StUser stages ++
       [StFacet (skip ++ [StLimit limit]) [StCount "count"]])%list in
    emit (EvStore (ReqAggregate newPipeline)) ;;;
    let totalDocsAggregate := aggregateFacet newPipeline in
    assembleFacet options totalDocsAggregate
  else
    stages <- match _pipeline with
              | Some stages => ret stages
              | None => throw TypeError
              end ;;
    let newPipeline :=
      ([StSort sort] ++ map StUser stages ++ skip ++ [StLimit limit])%list in
    emit (EvStore (ReqAggregate newPipeline)) ;;;
    docs <- alloc (aggregate newPipeline) ;;
    prepareResponse docs options None.

End Plugin.
End Index.
Export Index.

(** * The page a batch assembles to *)

Module PageModel.

(** A cursor option counts as supplied when it is truthy, which is how
    every test of [options.next] and [options.previous] reads it. *)
Definition supplied (c : option string) : Prop := truthyStr c = true.


Section PageModel.
Context {Request : Type}.

(** The world after the array at [l] was overwritten with [a]. *)
Definition setArray (l : loc) (a : list Doc) (w : World Request) : World Request :=
  {| arrays := <[l := a]> (arrays w); events := events w |}.

(** The world after [e] was logged. *)
Definition logEvent (e : Event Request) (w : World Request) : World Request :=
  {| arrays := arrays w; events := (events w ++ [e])%list |}.

(** Where the next array is allocated. *)
Definition nextLoc (w : World Request) : loc := fresh (dom (arrays w)).

Definition hasMoreOf (B : list Doc) (o : IPaginateOptions) : bool :=
  truthyNum (limit o) && lengthGt (length B) (limit o).

Definition trimmed (B : list Doc) (o : IPaginateOptions) : list Doc :=
  if hasMoreOf B o then removelast B else B.

Definition pageOf (B : list Doc) (o : IPaginateOptions) : list Doc :=
  if truthyStr (previous o) then rev (trimmed B o) else trimmed B o.

Definition afterTrim (l : loc) (o : IPaginateOptions) (w : World Request) : World Request :=
  if hasMoreOf (contents w l) o then setArray l (removelast (contents w l)) w else w.

Definition afterPage (l : loc) (o : IPaginateOptions) (w : World Request) : World Request :=
  let w1 := afterTrim l o w in
  if truthyStr (previous o) then setArray l (rev (contents w1 l)) w1 else w1.

Definition flagPrevious (B : list Doc) (o : IPaginateOptions) : bool :=
  truthyStr (next o) || (truthyStr (previous o) && hasMoreOf B o).

Definition flagNext (B : list Doc) (o : IPaginateOptions) : bool :=
  truthyStr (previous o) || hasMoreOf B o.

(** The cursor of an edge: absent when its flag is off. *)
Definition edgeCursor `{ObjectModel} `{CursorCodec} (flag : bool) (d : option Doc)
    (so : option SortOptions) : Outcome (option string) :=
  if flag then
    match prepareCursor d so with
    | Ok c => Ok (Some c)
    | Throw e => Throw e
    end
  else Ok None.

End PageModel.

Section Operations.
Context `{Store} `{!Query}.
Variable pluginOptions : option IPluginOptions.

(** The limit that [options.limit] is assigned. *)
Definition assignedLimit (o : IPaginateOptions) : option JSNumber :=
  if useDefaultLimit pluginOptions o then defaultLimitOf pluginOptions else limit o.

(** The pipeline [aggregatePaged] builds around the caller's stages. *)
Definition builtPipeline (o : IPaginateOptions) (match_ : Filter)
    (stages : list UserStage) : list Stage :=
  let skip := if (0 <? length (keys match_))%nat then [StMatch match_] else [] in
  let cap :=
    StLimit (if unlimited pluginOptions o then JNum 0 else succ (limit o)) in
  if pluginFlag pluginOptions dontReturnTotalDocs
  then ([StSort (generateSort o)] ++ map StUser stages ++
        [StFacet (skip ++ [cap]) [StCount "count"]])%list
  else ([StSort (generateSort o)] ++ map StUser stages ++ skip ++ [cap])%list.

End Operations.
End PageModel.
Export PageModel.

(** * The cursor codec *)

Module BsonUrlEncoding.

Import Stdlib.Init.Byte.
Local Open Scope N_scope.

(** [src/utils/bsonUrlEncoding.ts] is missing: only its caller
    [prepareCursor] and the [bson] and [base64-url] dependencies of
    [package.json] are at hand.  Section 4.1 of the specification asks for
    a lossless, typed serialization of a value sequence followed by a
    URL-safe textual transform.  The model writes each value as a BSON type
    byte and a fixed-layout payload, then the bytes in unpadded base64url. *)

(** The byte of value [n mod 256]. *)
Definition byteOfN (n : N) : byte := default x00 (Byte.of_N (n mod 256)).

(** [k] bytes, least significant first. *)
Fixpoint littleEndian (k : nat) (n : N) : list byte :=
  match k with
  | O => []
  | S k' => byteOfN n :: littleEndian k' (n / 256)
  end.

Fixpoint ofLittleEndian (bs : list byte) : N :=
  match bs with
  | [] => 0
  | b :: rest => Byte.to_N b + 256 * ofLittleEndian rest
  end.

(** A signed 64-bit integer in two's complement. *)
Definition int64Bytes (z : Z) : list byte :=
  littleEndian 8 (Z.to_N (z mod 2 ^ 64)).

Definition int64OfBytes (bs : list byte) : Z :=
  let n := Z.of_N (ofLittleEndian bs) in
  if (n <? 2 ^ 63)%Z then n else (n - 2 ^ 64)%Z.

(** Modelled from the spec: the typed serialization of one value, missing
    with [src/utils/bsonUrlEncoding.ts]: its BSON type byte, then its
    payload.  Outside the supported scalars the payload is not kept. *)
Definition serializeValue (v : Value) : list byte :=
  match v with
  | VDouble bits => x01 :: littleEndian 8 bits
  | VString s =>
      let bs := list_byte_of_string s in
      x02 :: littleEndian 4 (N.of_nat (length bs)) ++ bs
  | VObject _ => [x03]
  | VArray _ => [x04]
  | VUndefined => [x06]
  | VObjectId bs => x07 :: firstn 12 (bs ++ repeat x00 12)
  | VBool b => [x08; if b then x01 else x00]
  | VDate ms => x09 :: int64Bytes ms
  | VNull => [x0a]
  | VInt z => x12 :: int64Bytes z
  end.

(** Modelled from the spec: the serialization of a value sequence, one
    value after the other. *)
Definition serialize (vs : list Value) : list byte :=
  concat (map serializeValue vs).

(** Modelled from the spec: reading one typed value off the front, as the
    missing decoder must; the value and the bytes left, or [None] for an
    unknown type byte or a truncated payload. *)
Definition parseValue (bs : list byte) : option (Value * list byte) :=
  match bs with
  | [] => None
  | tag :: rest =>
      let fixed (k : nat) (mk : list byte -> Value) :=
        if (k <=? length rest)%nat
        then Some (mk (firstn k rest), skipn k rest) else None in
      match tag with
      | x01 => fixed 8%nat (fun p => VDouble (ofLittleEndian p))
      | x02 =>
          if (4 <=? length rest)%nat then
            let len := N.to_nat (ofLittleEndian (firstn 4 rest)) in
            let body := skipn 4 rest in
            if (len <=? length body)%nat
            then Some (VString (string_of_list_byte (firstn len body)),
                       skipn len body)
            else None
          else None
      | x03 => Some (VObject [], rest)
      | x04 => Some (VArray [], rest)
      | x06 => Some (VUndefined, rest)
      | x07 => fixed 12%nat VObjectId
      | x08 =>
          match rest with
          | x00 :: rest' => Some (VBool false, rest')
          | x01 :: rest' => Some (VBool true, rest')
          | _ => None
          end
      | x09 => fixed 8%nat (fun p => VDate (int64OfBytes p))
      | x0a => Some (VNull, rest)
      | x12 => fixed 8%nat (fun p => VInt (int64OfBytes p))
      | _ => None
      end
  end.

Fixpoint parse (fuel : nat) (bs : list byte) : option (list Value) :=
  match bs with
  | [] => Some []
  | _ :: _ =>
      match fuel with
      | O => None
      | S fuel' =>
          match parseValue bs with
          | Some (v, rest) =>
              match parse fuel' rest with
              | Some vs => Some (v :: vs)
              | None => None
              end
          | None => None
          end
      end
  end.

(** Modelled from the spec: reading a whole value sequence back. *)
Definition deserialize (bs : list byte) : option (list Value) :=
  parse (length bs) bs.

(** Base64url (RFC 4648, section 5), without padding. *)
Definition alphabet : list ascii :=
  list_ascii_of_string
    "ABCDEFGHIJKLMNOPQRSTUVWXYZabcdefghijklmnopqrstuvwxyz0123456789-_".

Definition charOfSextet (n : N) : ascii :=
  nth (N.to_nat n) alphabet "A"%char.

Fixpoint indexOf (c : ascii) (cs : list ascii) : option N :=
  match cs with
  | [] => None
  | c' :: rest =>
      if Ascii.eqb c c' then Some 0
      else match indexOf c rest with
           | Some i => Some (N.succ i)
           | None => None
           end
  end.

Definition sextetOfChar (c : ascii) : option N := indexOf c alphabet.

(** Every letter of the alphabet is found again at its own index. *)
Definition alphabetChecked : bool :=
  forallb
    (fun i =>
       match sextetOfChar (charOfSextet (N.of_nat i)) with
       | Some j => j =? N.of_nat i
       | None => false
       end)
    (seq 0 64).

Fixpoint sextets (bs : list byte) : list N :=
  match bs with
  | a :: b :: c :: rest =>
      let n := Byte.to_N a * 65536 + Byte.to_N b * 256 + Byte.to_N c in
      n / 262144 :: (n / 4096) mod 64 :: (n / 64) mod 64 :: n mod 64
        :: sextets rest
  | [a; b] =>
      let n := Byte.to_N a * 1024 + Byte.to_N b * 4 in
      [n / 4096; (n / 64) mod 64; n mod 64]
  | [a] =>
      let n := Byte.to_N a * 16 in
      [n / 64; n mod 64]
  | [] => []
  end.

Fixpoint ofSextets (ss : list N) : option (list byte) :=
  match ss with
  | p :: q :: r :: s :: rest =>
      let n := p * 262144 + q * 4096 + r * 64 + s in
      match ofSextets rest with
      | Some bs =>
          Some (byteOfN (n / 65536) :: byteOfN (n / 256) :: byteOfN n :: bs)
      | None => None
      end
  | [p; q; r] =>
      let n := p * 4096 + q * 64 + r in
      Some [byteOfN (n / 1024); byteOfN (n / 4)]
  | [p; q] =>
      let n := p * 64 + q in
      Some [byteOfN (n / 16)]
  | [_] => None
  | [] => Some []
  end.

(** Modelled from the spec: the URL-safe textual transform, taken to be
    that of the [base64-url] dependency. *)
Definition base64urlEncode (bs : list byte) : string :=
  string_of_list_ascii (map charOfSextet (sextets bs)).

Fixpoint mapM {A B} (f : A -> option B) (l : list A) : option (list B) :=
  match l with
  | [] => Some []
  | a :: rest =>
      match f a, mapM f rest with
      | Some b, Some bs => Some (b :: bs)
      | _, _ => None
      end
  end.

(** Modelled from the spec: the inverse transform; [None] for a letter
    outside the alphabet or an impossible length. *)
Definition base64urlDecode (s : string) : option (list byte) :=
  match mapM sextetOfChar (list_ascii_of_string s) with
  | Some ss => ofSextets ss
  | None => None
  end.

(** Modelled from the spec: [encode] of the missing
    [src/utils/bsonUrlEncoding.ts], a typed serialization followed by a
    URL-safe textual transform. *)
Definition encodeCursor (vs : list Value) : string :=
  base64urlEncode (serialize vs).

(** Modelled from the spec: [decode] of the missing
    [src/utils/bsonUrlEncoding.ts]; a token that is not validly encoded, is
    truncated or holds an unknown type is a [MalformedCursor]. *)
Definition decodeCursor (s : string) : Outcome (list Value) :=
  match base64urlDecode s with
  | Some bs =>
      match deserialize bs with
      | Some vs => Ok vs
      | None => Throw MalformedCursor
      end
  | None => Throw MalformedCursor
  end.

Definition codec : CursorCodec :=
  {| encode := encodeCursor; decode := decodeCursor |}.

(** Modelled from the spec: the values section 4.1 promises the round trip
    for (integers, floating point, strings, date/time instants, unique
    identifiers, null), each within the range of its representation. *)
Definition supported (v : Value) : bool :=
  match v with
  | VNull => true
  | VInt z => (- 2 ^ 63 <=? z)%Z && (z <? 2 ^ 63)%Z
  | VDouble bits => bits <? 2 ^ 64
  | VString s => N.of_nat (String.length s) <? 2 ^ 32
  | VDate ms => (- 2 ^ 63 <=? ms)%Z && (ms <? 2 ^ 63)%Z
  | VObjectId bs => (length bs =? 12)%nat
  | VUndefined | VBool _ | VObject _ | VArray _ => false
  end.

End BsonUrlEncoding.
Export BsonUrlEncoding.


(** * Sample documents, requests and collaborators *)

Module Fixtures.

Import Stdlib.Init.Byte.

Definition oid (n : byte) : Value := VObjectId (repeat x00 11 ++ [n]).

Definition person (n : byte) (age : Z) : Doc :=
  [("_id", oid n); ("age", VInt age)].

Definition ann : Doc := person x01 20.
Definition bob : Doc := person x02 20.
Definition cat : Doc := person x03 25.

Definition byAge : SortOptions := [("age", Ascending)].

(** Plain data objects: nothing is inherited. *)
Definition plain : ObjectModel := {| inherited := fun _ _ => VUndefined |}.

Definition request (n : option JSNumber) (after before : option string)
  : IPaginateOptions :=
  {| limit := n; sortOptions := Some byAge; next := after; previous := before |}.

(** A heap holding one array, at location [1]. *)
Definition heapOf {Request : Type} (B : list Doc) : World Request :=
  {| arrays := {[ 1%positive := B ]}; events := [] |}.

Definition noHeap {Request : Type} : World Request :=
  {| arrays := ∅; events := [] |}.

(** A model whose filters are lists of field names, and a store that
    answers every fetch with the same three documents. *)
Definition people : Model :=
  {| Filter := list string; Projection := unit; Populate := unit;
     Sort := SortOptions; UserStage := string;
     emptyFilter := []; keys := fun f => f; noPopulate := tt |}.

Definition peopleStore : @Store people :=
  {| find := fun _ _ _ _ _ => [ann; bob; cat];
     countDocuments := fun _ => 3%Z;
     aggregate := fun _ => [ann; bob; cat];
     aggregateFacet := fun _ =>
       FacetArray [{| results := [ann; bob; cat]; totalCount := [3%Z] |}] |}.

Definition cursorFilter (o : IPaginateOptions) : Outcome (list string) :=
  if truthyStr (next o) || truthyStr (previous o) then Ok ["$or"] else Ok [].

Definition peopleQuery : @Query people :=
  @Build_Query people cursorFilter (fun o => default [] (sortOptions o)).

End Fixtures.

(** * Installing the plugin ([src/index.ts], the default export) *)

Module Install.
Section Install.
Context `{ObjectModel} `{CursorCodec} `{Store} `{!Query}.

(** A static method of a schema: one of the two paged operations, closed
    over the plugin options it was installed with, or a method that was
    there before. *)
Inductive Static : Type :=
| StaticFind
    (f : IPaginateOptions -> option Filter -> option Projection ->
         option Populate -> M (Request := Request) IPaginateResult)
| StaticAggregate
    (f : IPaginateOptions -> option (list UserStage) ->
         M (Request := Request) IPaginateResult)
| StaticOther (name : string).

(** Of a mongoose schema the plugin touches [schema.statics] only. *)
Record Schema : Type := { statics : gmap string Static }.

(** [export default function (schema, pluginOptions)]: the two assignments
    to [schema.statics], in order. *)
Definition plugin (schema : Schema) (pluginOptions : option IPluginOptions)
  : Schema :=
  let statics1 :=
    <["findPaged" := StaticFind (findPaged pluginOptions)]> (statics schema) in
  {| statics :=
       <["aggregatePaged" := StaticAggregate (aggregatePaged pluginOptions)]>
         statics1 |}.

End Install.
End Install.
Export Install.

(** * Notions used to state further properties *)

Module Notions.

(** The result [r] with its [totalDocs] replaced. *)
Definition withTotal (t : option Z) (r : IPaginateResult) : IPaginateResult :=
  {| docs := docs r; hasPrevious := hasPrevious r; hasNext := hasNext r;
     next_ := next_ r; previous_ := previous_ r; totalDocs := t |}.

(** Whether a key holds the path separator. *)
Fixpoint hasDot (s : string) : bool :=
  match s with
  | EmptyString => false
  | String a s' => Ascii.eqb a "." || hasDot s'
  end.

(** The [$limit] a built pipeline ends with, at the top level or inside the
    [results] facet. *)
Definition pipelineCap `{Model} (pipeline : list Stage) : option JSNumber :=
  match last pipeline with
  | Some (StLimit n) => Some n
  | Some (StFacet results _) =>
      match last results with
      | Some (StLimit n) => Some n
      | _ => None
      end
  | _ => None
  end.

End Notions.
Export Notions.

(** * Further sample collaborators *)

Module MoreFixtures.

Import Fixtures.

(** A [query.ts] that rejects every cursor. *)
Definition rejectCursor (o : IPaginateOptions) : Outcome (list string) :=
  if truthyStr (next o) || truthyStr (previous o)
  then Throw MalformedCursor else Ok [].

Definition strictQuery : @Query people :=
  @Build_Query people rejectCursor (fun o => default [] (sortOptions o)).

(** Plugin options that switch unlimited results off. *)
Definition capped : IPluginOptions :=
  {| dontReturnTotalDocs := None; dontAllowUnlimitedResults := Some true;
     defaultLimit := Some (JNum 2) |}.

(** Plugin options that switch totals off. *)
Definition noTotals : IPluginOptions :=
  {| dontReturnTotalDocs := Some true; dontAllowUnlimitedResults := None;
     defaultLimit := None |}.

Definition address : Doc :=
  [("_id", oid Byte.x04);
   ("home", VObject [("city", VString "Oslo")]);
   ("work", VNull)].

End MoreFixtures.

(** * Properties of the page assembler *)

Module ResponseFacts.
Section ResponseFacts.
Context `{ObjectModel} `{CursorCodec} {Request : Type}.

Abbreviation World := (World Request).

Lemma contents_insert l a m (e : list (Event Request)) :
  contents {| arrays := <[l := a]> m; events := e |} l = a.
Proof. unfold contents; simpl. by rewrite lookup_insert_eq. Qed.

Lemma contents_setArray l a (w : World) : contents (setArray l a w) l = a.
Proof. apply contents_insert. Qed.

Lemma contents_setArray_ne l l' a (w : World) :
  l <> l' -> contents (setArray l a w) l' = contents w l'.
Proof. intros Hne. unfold contents, setArray; simpl. by rewrite lookup_insert_ne. Qed.

Lemma contents_afterTrim l o (w : World) :
  contents (afterTrim l o w) l = trimmed (contents w l) o.
Proof.
  unfold afterTrim, trimmed. destruct (hasMoreOf _ _); [apply contents_setArray | done].
Qed.

Lemma contents_afterPage l o (w : World) :
  contents (afterPage l o w) l = pageOf (contents w l) o.
Proof.
  unfold afterPage, pageOf. destruct (truthyStr _).
  - by rewrite contents_setArray, contents_afterTrim.
  - apply contents_afterTrim.
Qed.

Lemma contents_afterPage_ne l l' o (w : World) :
  l <> l' -> contents (afterPage l o w) l' = contents w l'.
Proof.
  intros Hne. unfold afterPage, afterTrim.
  destruct (truthyStr _), (hasMoreOf _ _);
    rewrite ?contents_setArray_ne by done; done.
Qed.

Lemma events_afterPage l o (w : World) : events (afterPage l o w) = events w.
Proof. unfold afterPage, afterTrim. by destruct (truthyStr _), (hasMoreOf _ _). Qed.

(** Without overflow and without a backward request the heap is not
    written at all. *)
Lemma afterPage_untouched l o (w : World) :
  hasMoreOf (contents w l) o = false -> truthyStr (previous o) = false ->
  afterPage l o w = w.
Proof. intros Hm Hp. unfold afterPage, afterTrim. by rewrite Hm, Hp. Qed.

(** [a[a.length - 1]] is the last element. *)
Lemma lookup_last_index (a : list Doc) :
  (if (Z.of_nat (length a) - 1 <? 0)%Z then None
   else a !! Z.to_nat (Z.of_nat (length a) - 1)) = last a.
Proof.
  rewrite last_lookup. destruct a as [|d a]; [done|].
  destruct (Z.ltb_spec (Z.of_nat (length (d :: a)) - 1) 0) as [Hlt|_].
  - simpl in Hlt. lia.
  - f_equal. simpl. lia.
Qed.

(** One run of [prepareResponse], step by step. *)
Lemma prepareResponse_run l o t (w : World) :
  let B := contents w l in
  let D := pageOf B o in
  prepareResponse l o t w =
    (match edgeCursor (flagNext B o) (last D) (sortOptions o) with
     | Throw e => Throw e
     | Ok n =>
         match edgeCursor (flagPrevious B o) (head D) (sortOptions o) with
         | Throw e => Throw e
         | Ok p => Ok {| docs := l; hasPrevious := flagPrevious B o;
                         hasNext := flagNext B o; next_ := n; previous_ := p;
                         totalDocs := t |}
         end
     end, afterPage l o w).
Proof.
  intros B D. subst D.
  unfold prepareResponse, pageOf, trimmed, afterPage, afterTrim, setArray,
    flagNext, flagPrevious, edgeCursor, bind, arrayLength, arrayPop,
    arrayReverse, arrayGet, update, bind, ret, liftOutcome.
  fold B. fold (hasMoreOf B o).
  destruct (hasMoreOf B o) eqn:Hm; destruct (truthyStr (previous o)) eqn:Hp;
    destruct (truthyStr (next o)) eqn:Hn;
    cbn [andb orb]; cbv beta iota zeta;
    change (0 <? 0)%Z with false; change (Z.to_nat 0) with 0%nat;
    cbv beta iota zeta;
    repeat first
      [ rewrite contents_insert
      | rewrite lookup_last_index
      | rewrite <- head_lookup
      | progress fold B
      | match goal with
        | |- context [prepareCursor ?d ?s] => destruct (prepareCursor d s)
        end
      | progress cbn [arrays events]
      | reflexivity ].
Qed.

(** What a returned result says about the run that produced it. *)
Lemma prepareResponse_Ok l o t (w w' : World) r :
  prepareResponse l o t w = (Ok r, w') ->
  let B := contents w l in
  w' = afterPage l o w /\
  docs r = l /\
  hasPrevious r = flagPrevious B o /\
  hasNext r = flagNext B o /\
  totalDocs r = t /\
  edgeCursor (flagNext B o) (last (pageOf B o)) (sortOptions o) = Ok (next_ r) /\
  edgeCursor (flagPrevious B o) (head (pageOf B o)) (sortOptions o) = Ok (previous_ r).
Proof.
  rewrite prepareResponse_run. intros Hrun B. fold B in Hrun.
  destruct (edgeCursor (flagNext B o) _ _) as [n|e]; [|by inversion Hrun].
  destruct (edgeCursor (flagPrevious B o) _ _) as [p|e]; [|by inversion Hrun].
  by inversion Hrun; subst.
Qed.

Lemma hasMoreOf_positive (B : list Doc) o N :
  limit o = Some (JNum N) -> (0 < N)%Z ->
  hasMoreOf B o = (N <? Z.of_nat (length B))%Z.
Proof.
  intros Hl HN. unfold hasMoreOf. rewrite Hl. simpl.
  destruct (Z.eqb_spec N 0); [lia | done].
Qed.

(** A page that is not empty always assembles. *)
Lemma prepareResponse_completes l o t (w : World) :
  pageOf (contents w l) o <> [] ->
  exists r, prepareResponse l o t w = (Ok r, afterPage l o w).
Proof.
  intros Hne. rewrite prepareResponse_run.
  assert (Hl : exists d, last (pageOf (contents w l) o) = Some d).
  { destruct (last _) eqn:E; [eauto | by apply last_None in E]. }
  assert (Hh : exists d, head (pageOf (contents w l) o) = Some d).
  { destruct (pageOf _ _); [done | simpl; eauto]. }
  destruct Hl as [dl ->], Hh as [dh ->].
  unfold edgeCursor, prepareCursor.
  destruct (flagNext _ _), (flagPrevious _ _); eauto.
Qed.

(** C1: for a positive effective limit [N] and a fetched batch [B], with
    [hasMore] meaning [|B| > N]: [hasPrevious] is true exactly when an
    after-cursor ([options.next]) was supplied, or a before-cursor
    ([options.previous]) was supplied and [hasMore] holds; [hasNext] is true
    exactly when a before-cursor was supplied or [hasMore] holds.  In
    particular an after-cursor alone makes [hasPrevious] true, whatever the
    batch. *)
Theorem edge_flags l o t N (w w' : World) r :
  limit o = Some (JNum N) -> (0 < N)%Z ->
  prepareResponse l o t w = (Ok r, w') ->
  let hasMore := (N < Z.of_nat (length (contents w l)))%Z in
  (hasPrevious r = true <->
     supplied (next o) \/ (supplied (previous o) /\ hasMore)) /\
  (hasNext r = true <-> supplied (previous o) \/ hasMore) /\
  (supplied (next o) -> hasPrevious r = true).
Proof.
  intros Hl HN Hrun hasMore.
  destruct (prepareResponse_Ok _ _ _ _ _ _ Hrun) as (_ & _ & Hp & Hn & _).
  rewrite Hp, Hn. unfold flagPrevious, flagNext, supplied.
  rewrite (hasMoreOf_positive _ _ _ Hl HN).
  rewrite !orb_true_iff, andb_true_iff, Z.ltb_lt.
  subst hasMore. intuition.
Qed.

(** C2: for a positive effective limit [N], the returned documents are the
    batch [B] with its last element dropped when [|B| > N], then reversed
    exactly when a before-cursor was supplied.  When [|B| <= N] nothing is
    dropped and no flag is raised by overflow; a batch of [N + 1] documents
    gives a page of exactly [N], and a batch of at most [N + 1] (the cap of
    the fetch) a page of [min(|B|, N)]. *)
Theorem returned_documents l o t N (w w' : World) r :
  limit o = Some (JNum N) -> (0 < N)%Z ->
  prepareResponse l o t w = (Ok r, w') ->
  let B := contents w l in
  let kept := if (N <? Z.of_nat (length B))%Z then removelast B else B in
  let page := contents w' (docs r) in
  page = (if truthyStr (previous o) then rev kept else kept) /\
  ((Z.of_nat (length B) <= N)%Z ->
     kept = B /\ hasNext r = truthyStr (previous o) /\
     hasPrevious r = truthyStr (next o)) /\
  ((N < Z.of_nat (length B))%Z ->
     length page = pred (length B) /\ hasNext r = true) /\
  (Z.of_nat (length B) = (N + 1)%Z -> Z.of_nat (length page) = N) /\
  ((Z.of_nat (length B) <= N + 1)%Z ->
     Z.of_nat (length page) = Z.min (Z.of_nat (length B)) N).
Proof.
  intros Hl HN Hrun B kept page.
  destruct (prepareResponse_Ok _ _ _ _ _ _ Hrun) as (-> & Hd & Hp & Hn & _).
  fold B in Hp, Hn.
  assert (Hpage : page = if truthyStr (previous o) then rev kept else kept).
  { subst page. rewrite Hd, contents_afterPage. fold B.
    unfold pageOf, trimmed. by rewrite (hasMoreOf_positive _ _ _ Hl HN). }
  assert (Hlen : length page = length kept).
  { rewrite Hpage. destruct (truthyStr _); [apply length_rev | done]. }
  assert (Hkept : length kept =
            if (N <? Z.of_nat (length B))%Z then pred (length B) else length B).
  { subst kept. destruct (N <? _)%Z; [|done].
    destruct B as [|d B'] using rev_ind; [done|].
    by rewrite removelast_last, length_app, Nat.add_1_r. }
  rewrite Hp, Hn. unfold flagPrevious, flagNext.
  rewrite (hasMoreOf_positive _ _ _ Hl HN), Hlen, Hkept.
  split; [exact Hpage|]. subst kept.
  destruct (Z.ltb_spec N (Z.of_nat (length B))) as [Hgt|Hle];
    rewrite ?andb_true_r, ?andb_false_r, ?orb_true_r, ?orb_false_r;
    repeat split; intros; try done; try lia.
Qed.

(** C6: when the returned page is not empty, the next cursor is present
    exactly when [hasNext] is true and is then the encoding of the value
    tuple of the last returned document; the previous cursor is present
    exactly when [hasPrevious] is true and is then the encoding of the value
    tuple of the first returned document. *)
Theorem edge_cursors l o t (w w' : World) r :
  prepareResponse l o t w = (Ok r, w') ->
  contents w' (docs r) <> [] ->
  exists firstDoc lastDoc,
    head (contents w' (docs r)) = Some firstDoc /\
    last (contents w' (docs r)) = Some lastDoc /\
    (is_Some (next_ r) <-> hasNext r = true) /\
    (is_Some (previous_ r) <-> hasPrevious r = true) /\
    (hasNext r = true ->
       next_ r = Some (encode (cursorValues lastDoc (default [] (sortOptions o))))) /\
    (hasPrevious r = true ->
       previous_ r =
         Some (encode (cursorValues firstDoc (default [] (sortOptions o))))).
Proof.
  intros Hrun Hne.
  destruct (prepareResponse_Ok _ _ _ _ _ _ Hrun)
    as (-> & Hd & Hp & Hn & _ & Hnext & Hprev).
  rewrite Hd, contents_afterPage in Hne |- *.
  set (D := pageOf (contents w l) o) in *.
  destruct (last D) as [lastDoc|] eqn:El; [|by apply last_None in El].
  destruct (head D) as [firstDoc|] eqn:Eh; [|by destruct D].
  exists firstDoc, lastDoc. rewrite Hp, Hn.
  unfold edgeCursor, prepareCursor in Hnext, Hprev.
  destruct (flagNext _ _), (flagPrevious _ _);
    inversion Hnext; inversion Hprev;
    repeat split; intros; try done; try (by eexists);
    match goal with Hs : is_Some None |- _ => by destruct Hs end.
Qed.

(** C9, as the code has it: the assembler edits the caller's array in
    place.  After the call that array holds the page (the batch without its
    overflow document, reversed for a backward request) and is the array
    the result refers to; every other array, and the event log, are as
    before; and the array itself is as before when there was no overflow
    and no before-cursor. *)
Theorem batch_array_edited_in_place l o t (w : World) :
  let B := contents w l in
  let w' := snd (prepareResponse l o t w) in
  let kept := if hasMoreOf B o then removelast B else B in
  contents w' l = (if truthyStr (previous o) then rev kept else kept) /\
  (forall l', l' <> l -> arrays w' !! l' = arrays w !! l') /\
  events w' = events w /\
  (forall r, fst (prepareResponse l o t w) = Ok r -> docs r = l) /\
  (hasMoreOf B o = false -> truthyStr (previous o) = false -> w' = w).
Proof.
  intros B w' kept. subst w'. rewrite prepareResponse_run. cbn [fst snd].
  rewrite contents_afterPage, events_afterPage.
  repeat split.
  - intros l' Hne. unfold afterPage, afterTrim, setArray.
    destruct (truthyStr _), (hasMoreOf _ _); cbn [arrays];
      rewrite ?lookup_insert_ne by done; done.
  - intros r Hr.
    destruct (edgeCursor (flagNext _ _) _ _); [|done].
    destruct (edgeCursor (flagPrevious _ _) _ _); [|done].
    by inversion Hr.
  - apply afterPage_untouched.
Qed.

(** C10, where the code fails: on an empty batch with a cursor supplied, a
    flag is set, the edge document read is [undefined], and reading its
    [_id] throws a [TypeError]; no result is returned. *)
Theorem empty_batch_with_cursor_throws l o t (w : World) :
  contents w l = [] ->
  supplied (next o) \/ supplied (previous o) ->
  fst (prepareResponse l o t w) = Throw TypeError.
Proof.
  intros HB Hc. rewrite prepareResponse_run. cbn [fst]. rewrite HB.
  assert (HD : pageOf [] o = []).
  { unfold pageOf, trimmed. by destruct (truthyStr _), (hasMoreOf _ _). }
  rewrite HD. unfold edgeCursor, flagNext, flagPrevious, supplied in *.
  destruct Hc as [-> | ->]; simpl.
  - destruct (truthyStr (previous o) || hasMoreOf [] o); reflexivity.
  - reflexivity.
Qed.

End ResponseFacts.

Import Fixtures.

Lemma edge_flags_witness :
  exists r w',
    @prepareResponse plain codec unit 1%positive
      (request (Some (JNum 2)) (Some "c") None) None
      (heapOf [ann; bob; cat]) = (Ok r, w') /\
    hasPrevious r = true /\ hasNext r = true.
Proof.
  eexists _, _. split; [vm_compute; reflexivity|].
  destruct (@edge_flags plain codec unit 1%positive
              (request (Some (JNum 2)) (Some "c") None) None 2
              (heapOf [ann; bob; cat]) _ _ eq_refl ltac:(lia) eq_refl)
    as (_ & Hn & Hp).
  split; [apply Hp; reflexivity | apply Hn; right; vm_compute; reflexivity].
Defined.

Lemma returned_documents_witness :
  exists r w',
    @prepareResponse plain codec unit 1%positive
      (request (Some (JNum 2)) None (Some "c")) None
      (heapOf [cat; bob; ann]) = (Ok r, w') /\
    contents w' (docs r) = [bob; cat].
Proof.
  eexists _, _. split; [vm_compute; reflexivity|].
  destruct (@returned_documents plain codec unit 1%positive
              (request (Some (JNum 2)) None (Some "c")) None 2
              (heapOf [cat; bob; ann]) _ _ eq_refl ltac:(lia) eq_refl)
    as (Hpage & _).
  etransitivity; [exact Hpage | vm_compute; reflexivity].
Defined.

Lemma edge_cursors_witness :
  exists r w',
    @prepareResponse plain codec unit 1%positive
      (request (Some (JNum 2)) None None) None
      (heapOf [ann; bob; cat]) = (Ok r, w') /\
    next_ r = Some (@encode codec [VInt 20; oid Byte.x02]) /\
    previous_ r = None.
Proof.
  eexists _, _. split; [vm_compute; reflexivity|].
  destruct (@edge_cursors plain codec unit 1%positive
              (request (Some (JNum 2)) None None) None
              (heapOf [ann; bob; cat]) _ _ eq_refl
              ltac:(vm_compute; discriminate))
    as (firstDoc & lastDoc & _ & Hlast & _ & Hprev & Hnext & _).
  split.
  - etransitivity; [apply Hnext; vm_compute; reflexivity|].
    vm_compute in Hlast. inversion Hlast. reflexivity.
  - vm_compute. reflexivity.
Defined.

(** C9, as stated, fails: with limit 1 and a batch of two documents the
    caller's array holds one document after the call. *)
Lemma batch_array_not_preserved :
  let w := heapOf (Request := unit) [ann; bob] in
  let w' := snd (@prepareResponse plain codec unit 1%positive
                   (request (Some (JNum 1)) None None) None w) in
  contents w 1%positive = [ann; bob] /\
  contents w' 1%positive = [ann] /\
  contents w' 1%positive <> contents w 1%positive.
Proof. vm_compute. repeat split; discriminate. Qed.

Lemma empty_batch_with_cursor_throws_witness :
  fst (@prepareResponse plain codec unit 1%positive
         (request (Some (JNum 10)) (Some "c") None) None (heapOf [])) =
  Throw TypeError.
Proof.
  apply empty_batch_with_cursor_throws; [reflexivity | left; reflexivity].
Defined.

End ResponseFacts.

(** * Properties of the cursor value tuple *)

Module CursorFacts.

Import Fixtures MoreFixtures.

Example split_dotted : split "." "address.city" = ["address"; "city"].
Proof. reflexivity. Qed.

Example split_plain : split "." "age" = ["age"].
Proof. reflexivity. Qed.

Example array_index : arrayIndex "10" = Some 10 /\ arrayIndex "01" = None.
Proof. split; reflexivity. Qed.

Example nested_value :
  @cursorValues plain address [("home.city", Ascending)] =
  [VString "Oslo"; oid Byte.x04].
Proof. reflexivity. Qed.

Lemma split_not_nil (c : ascii) (s : string) : split c s <> [].
Proof.
  destruct s as [|a s]; [done|]. cbn [split].
  destruct (Ascii.eqb a c); [done|]. by destruct (split c s).
Qed.




Section CursorFacts.
Context `{ObjectModel}.


End CursorFacts.


End CursorFacts.

(** * Properties of the two paged operations *)

Module IndexFacts.
Section IndexFacts.
Context `{ObjectModel} `{CursorCodec} `{Store} `{!Query}.
Variable pluginOptions : option IPluginOptions.

Abbreviation World := (World Request).

Lemma prepareResponse_events l o t (w : World) :
  events (snd (prepareResponse l o t w)) = events w.
Proof.
  rewrite ResponseFacts.prepareResponse_run. apply ResponseFacts.events_afterPage.
Qed.

Lemma prepareResponse_totalDocs l o t (w w' : World) r :
  prepareResponse l o t w = (Ok r, w') -> totalDocs r = t.
Proof.
  intros Hrun. by destruct (ResponseFacts.prepareResponse_Ok _ _ _ _ _ _ Hrun)
    as (_ & _ & _ & _ & Ht & _).
Qed.

(** What the faceted branch does with each reply. *)
Lemma assembleFacet_Ok o reply (w w' : World) r :
  assembleFacet o reply w = (Ok r, w') ->
  exists facet count rest,
    reply = FacetDeclared facet /\ totalCount facet = count :: rest /\
    prepareResponse (nextLoc w) o (Some count)
      (setArray (nextLoc w) (results facet) w) = (Ok r, w').
Proof.
  unfold assembleFacet, bind, alloc, throw.
  destruct reply as [items|facet]; [by inversion 1|].
  destruct (totalCount facet) as [|count rest] eqn:Hc; [by inversion 1|].
  intros Hrun. by exists facet, count, rest.
Qed.

Lemma assembleFacet_events o reply (w : World) :
  events (snd (assembleFacet o reply w)) = events w.
Proof.
  unfold assembleFacet, bind, alloc, throw.
  destruct reply as [items|facet]; [done|].
  destruct (totalCount facet) as [|count rest]; [done|].
  by rewrite prepareResponse_events.
Qed.

(** One run of [findPaged], call by call. *)
Lemma findPaged_run o q proj pop (w : World) :
  findPaged pluginOptions o q proj pop w =
    let o' := setLimit (assignedLimit pluginOptions o) o in
    let w1 := logEvent (EvSetLimit (assignedLimit pluginOptions o)) w in
    match generateCursorQuery o' with
    | Throw e => (Throw e, w1)
    | Ok cq =>
        let query := {| andCursor := cq; andBase := default emptyFilter q |} in
        let fetchLimit :=
          if unlimited pluginOptions o then JNum 0 else succ (assignedLimit pluginOptions o) in
        let populate := default noPopulate pop in
        let sort := generateSort o in
        let w2 := logEvent (EvStore (ReqFind query proj sort fetchLimit populate)) w1 in
        let l := nextLoc w2 in
        let w3 := setArray l (find query proj sort fetchLimit populate) w2 in
        if pluginFlag pluginOptions dontReturnTotalDocs
        then prepareResponse l o' None w3
        else prepareResponse l o' (Some (countDocuments q))
               (logEvent (EvStore (ReqCountDocuments q)) w3)
    end.
Proof.
  unfold findPaged, assignLimit, bind, emit, ret, liftOutcome, alloc. cbn [limit setLimit].
  fold (assignedLimit pluginOptions o).
  destruct (generateCursorQuery _); [|reflexivity].
  destruct (pluginFlag _ _); reflexivity.
Qed.

(** One run of [aggregatePaged], call by call. *)
Lemma aggregatePaged_run o stages match_ (w : World) :
  generateCursorQuery o = Ok match_ ->
  aggregatePaged pluginOptions o (Some stages) w =
    let o' := setLimit (assignedLimit pluginOptions o) o in
    let pipeline := builtPipeline pluginOptions o match_ stages in
    let w2 := logEvent (EvStore (ReqAggregate pipeline))
                (logEvent (EvSetLimit (assignedLimit pluginOptions o)) w) in
    let l := nextLoc w2 in
    if pluginFlag pluginOptions dontReturnTotalDocs
    then assembleFacet o' (aggregateFacet pipeline) w2
    else prepareResponse l o' None (setArray l (aggregate pipeline) w2).
Proof.
  intros Hq.
  unfold aggregatePaged, builtPipeline, assignLimit, bind, emit, ret,
    liftOutcome, alloc.
  rewrite Hq. fold (assignedLimit pluginOptions o).
  destruct (pluginFlag _ _); reflexivity.
Qed.

Lemma prepareResponse_inv_totalDocs l o t (w w' : World) r :
  prepareResponse l o t w = (Ok r, w') -> is_Some (totalDocs r) <-> is_Some t.
Proof. intros Hrun. by rewrite (prepareResponse_totalDocs _ _ _ _ _ _ Hrun). Qed.

(** [findPaged] attaches a total exactly when totals are not switched off,
    and asks the store for a count only then. *)
Lemma findPaged_total o q proj pop (w w' : World) r :
  findPaged pluginOptions o q proj pop w = (Ok r, w') ->
  (is_Some (totalDocs r) <-> pluginFlag pluginOptions dontReturnTotalDocs = false) /\
  (In (EvStore (ReqCountDocuments q)) (skipn (length (events w)) (events w')) <->
     pluginFlag pluginOptions dontReturnTotalDocs = false).
Proof.
  rewrite findPaged_run. cbv zeta.
  destruct (generateCursorQuery _) as [cq|e]; [|by inversion 1].
  destruct (pluginFlag _ _) eqn:Hflag; intros Hrun.
  - rewrite (prepareResponse_inv_totalDocs _ _ _ _ _ _ Hrun).
    apply (f_equal snd) in Hrun. cbn [snd] in Hrun. rewrite <- Hrun.
    rewrite prepareResponse_events. cbn [setArray logEvent events].
    rewrite <- app_assoc, skipn_app, skipn_all, Nat.sub_diag. cbn.
    split; split; intros Hx; try done;
      first [by destruct Hx as [? ?] | by destruct Hx as [?|[?|[]]]].
  - rewrite (prepareResponse_inv_totalDocs _ _ _ _ _ _ Hrun).
    apply (f_equal snd) in Hrun. cbn [snd] in Hrun. rewrite <- Hrun.
    rewrite prepareResponse_events. cbn [setArray logEvent events].
    rewrite <- !app_assoc, skipn_app, skipn_all, Nat.sub_diag. cbn.
    split; split; try done; eauto.
Qed.

(** C3, where the code fails: [aggregatePaged] tests the flag the wrong way
    round.  Its result carries [totalDocs] exactly when
    [dontReturnTotalDocs] is set, where [findPaged] attaches it exactly when
    the flag is not set. *)
Theorem aggregatePaged_total_inverted o pipeline (w w' : World) r :
  aggregatePaged pluginOptions o pipeline w = (Ok r, w') ->
  (is_Some (totalDocs r) <-> pluginFlag pluginOptions dontReturnTotalDocs = true).
Proof.
  destruct pipeline as [stages|].
  - destruct (generateCursorQuery o) as [match_|e] eqn:Hq.
    + rewrite (aggregatePaged_run _ _ _ _ Hq). cbv zeta.
      destruct (pluginFlag _ _); intros Hrun.
      * apply assembleFacet_Ok in Hrun as (facet & count & rest & _ & _ & Hrun).
        rewrite (prepareResponse_inv_totalDocs _ _ _ _ _ _ Hrun).
        split; intros Hx; try done.
      * rewrite (prepareResponse_inv_totalDocs _ _ _ _ _ _ Hrun).
        split; intros Hx; try done; by destruct Hx.
    + unfold aggregatePaged, bind, liftOutcome. rewrite Hq. by inversion 1.
  - unfold aggregatePaged, assignLimit, bind, liftOutcome, emit, ret, throw.
    destruct (generateCursorQuery o); [|by inversion 1].
    destruct (pluginFlag _ _); by inversion 1.
Qed.

Lemma invalid_limit_assigned o :
  isNaN (limit o) || ltZero (limit o) = true ->
  assignedLimit pluginOptions o = defaultLimitOf pluginOptions /\
  unlimited pluginOptions o = false.
Proof.
  intros Hbad. unfold assignedLimit, useDefaultLimit, unlimited.
  rewrite Hbad. split; [reflexivity|].
  destruct (limit o) as [[|z]|]; cbn in *; try reflexivity.
  destruct (Z.ltb_spec z 0), (Z.eqb_spec z 0); try done; lia.
Qed.

(** The part of C4 that holds: for a negative or [NaN] limit [findPaged]
    caps the fetch at the default limit plus one and assembles the page
    with the default limit. *)
Lemma findPaged_invalid_limit o q proj pop cq (w : World) :
  isNaN (limit o) || ltZero (limit o) = true ->
  let dl := defaultLimitOf pluginOptions in
  generateCursorQuery (setLimit dl o) = Ok cq ->
  let query := {| andCursor := cq; andBase := default emptyFilter q |} in
  let populate := default noPopulate pop in
  let sort := generateSort o in
  let w2 := logEvent (EvStore (ReqFind query proj sort (succ dl) populate))
              (logEvent (EvSetLimit dl) w) in
  let w3 := setArray (nextLoc w2) (find query proj sort (succ dl) populate) w2 in
  findPaged pluginOptions o q proj pop w =
    if pluginFlag pluginOptions dontReturnTotalDocs
    then prepareResponse (nextLoc w2) (setLimit dl o) None w3
    else prepareResponse (nextLoc w2) (setLimit dl o) (Some (countDocuments q))
           (logEvent (EvStore (ReqCountDocuments q)) w3).
Proof.
  intros Hbad dl Hq. rewrite findPaged_run.
  destruct (invalid_limit_assigned _ Hbad) as [-> ->]. cbv zeta.
  fold dl. by rewrite Hq.
Qed.

Lemma contents_logEvent e (w : World) l : contents (logEvent e w) l = contents w l.
Proof. reflexivity. Qed.

Lemma valid_limit_assigned o N :
  limit o = Some (JNum N) -> (0 < N)%Z ->
  assignedLimit pluginOptions o = Some (JNum N) /\
  unlimited pluginOptions o = false /\
  setLimit (Some (JNum N)) o = o.
Proof.
  intros Hl HN. unfold assignedLimit, useDefaultLimit, unlimited.
  rewrite Hl. cbn.
  destruct (Z.ltb_spec N 0), (Z.eqb_spec N 0); try lia. cbn.
  repeat split. destruct o; cbn in *. by subst.
Qed.

(** For a positive limit [N], [findPaged] fetches with the cap [N + 1] and
    assembles with [N]; when the store keeps to the cap, the page has
    [min(|B|, N)] documents. *)
Lemma findPaged_page_size o q proj pop cq N (w w' : World) r :
  limit o = Some (JNum N) -> (0 < N)%Z ->
  generateCursorQuery o = Ok cq ->
  let query := {| andCursor := cq; andBase := default emptyFilter q |} in
  let B := find query proj (generateSort o) (JNum (N + 1)) (default noPopulate pop) in
  (Z.of_nat (length B) <= N + 1)%Z ->
  findPaged pluginOptions o q proj pop w = (Ok r, w') ->
  In (EvStore (ReqFind query proj (generateSort o) (JNum (N + 1))
                 (default noPopulate pop))) (events w') /\
  Z.of_nat (length (contents w' (docs r))) = Z.min (Z.of_nat (length B)) N.
Proof.
  intros Hl HN Hq query B Hcap. rewrite findPaged_run.
  destruct (valid_limit_assigned _ _ Hl HN) as (Ha & Hu & Ho).
  cbv zeta. rewrite Ha, Hu, Ho, Hq. cbn [succ]. fold query. fold B.
  intros Hrun. split.
  - apply (f_equal snd) in Hrun. cbn [snd] in Hrun. rewrite <- Hrun.
    destruct (pluginFlag pluginOptions dontReturnTotalDocs);
      rewrite prepareResponse_events; cbn [setArray logEvent events];
      rewrite !in_app_iff; cbn; tauto.
  - destruct (pluginFlag pluginOptions dontReturnTotalDocs);
      destruct (ResponseFacts.prepareResponse_Ok _ _ _ _ _ _ Hrun)
        as (-> & -> & _);
      rewrite ResponseFacts.contents_afterPage, ?contents_logEvent,
        ResponseFacts.contents_setArray; fold B;
      unfold pageOf, trimmed;
      rewrite (ResponseFacts.hasMoreOf_positive _ _ _ Hl HN);
      (assert (Hrl : length (removelast B) = pred (length B));
       [ destruct B as [|d B'] using rev_ind; [done|];
         by rewrite removelast_last, length_app, Nat.add_1_r |]);
      destruct (truthyStr (previous o));
      destruct (Z.ltb_spec N (Z.of_nat (length B)));
      rewrite ?length_rev, ?Hrl; lia.
Qed.

(** C4, where the code fails: [aggregatePaged] computes the fetch cap
    before it replaces an invalid limit.  For a negative or [NaN] limit the
    pipeline is capped at that raw limit plus one ([NaN], or a number below
    one), not at the default limit plus one, while the page is assembled
    with the default limit. *)
Theorem aggregatePaged_invalid_limit o stages match_ (w : World) :
  isNaN (limit o) || ltZero (limit o) = true ->
  generateCursorQuery o = Ok match_ ->
  let dl := defaultLimitOf pluginOptions in
  let cap := StLimit (succ (limit o)) in
  let skip := if (0 <? length (keys match_))%nat then [StMatch match_] else [] in
  let sort := StSort (generateSort o) in
  let faceted :=
    ([sort] ++ map StUser stages ++ [StFacet (skip ++ [cap]) [StCount "count"]])%list in
  let plain := ([sort] ++ map StUser stages ++ skip ++ [cap])%list in
  let sent (pipeline : list Stage) :=
    logEvent (EvStore (ReqAggregate pipeline)) (logEvent (EvSetLimit dl) w) in
  (forall c, succ (limit o) = JNum c -> (c <= 0)%Z) /\
  aggregatePaged pluginOptions o (Some stages) w =
    if pluginFlag pluginOptions dontReturnTotalDocs
    then assembleFacet (setLimit dl o) (aggregateFacet faceted) (sent faceted)
    else prepareResponse (nextLoc (sent plain)) (setLimit dl o) None
           (setArray (nextLoc (sent plain)) (aggregate plain) (sent plain)).
Proof.
  intros Hbad Hq dl cap skip sort faceted plain sent. split.
  - intros c Hc. destruct (limit o) as [[|z]|]; cbn in *; try discriminate.
    inversion Hc; subst. destruct (Z.ltb_spec z 0); [lia | discriminate].
  - rewrite (aggregatePaged_run _ _ _ _ Hq). unfold builtPipeline.
    destruct (invalid_limit_assigned _ Hbad) as [-> ->]. cbv zeta.
    destruct (pluginFlag _ _); reflexivity.
Qed.

Lemma unlimited_assigned o :
  limit o = Some (JNum 0) ->
  pluginFlag pluginOptions dontAllowUnlimitedResults = false ->
  assignedLimit pluginOptions o = Some (JNum 0) /\
  unlimited pluginOptions o = true /\
  setLimit (Some (JNum 0)) o = o.
Proof.
  intros Hl Hflag. unfold assignedLimit, useDefaultLimit, unlimited.
  rewrite Hl, Hflag. cbn. repeat split.
  destruct o; cbn in *. by subst.
Qed.

Lemma last_cons_snoc {A} (x : A) l y : last (x :: l ++ [y]) = Some y.
Proof. by rewrite app_comm_cons, last_snoc. Qed.

Lemma hasMoreOf_unlimited (B : list Doc) o :
  limit o = Some (JNum 0) -> hasMoreOf B o = false.
Proof. intros Hl. unfold hasMoreOf. by rewrite Hl. Qed.

(** Assembly in unlimited mode: nothing is trimmed and overflow raises no
    flag. *)
Lemma prepareResponse_unlimited l o t (w w' : World) r :
  limit o = Some (JNum 0) ->
  prepareResponse l o t w = (Ok r, w') ->
  contents w' (docs r) =
    (if truthyStr (previous o) then rev (contents w l) else contents w l) /\
  (hasNext r = true <-> supplied (previous o)) /\
  (hasPrevious r = true <-> supplied (next o)).
Proof.
  intros Hl Hrun.
  destruct (ResponseFacts.prepareResponse_Ok _ _ _ _ _ _ Hrun)
    as (-> & -> & -> & -> & _).
  rewrite ResponseFacts.contents_afterPage.
  unfold pageOf, trimmed, flagNext, flagPrevious, supplied.
  rewrite (hasMoreOf_unlimited _ _ Hl).
  by rewrite andb_false_r, !orb_false_r.
Qed.

(** [findPaged] in unlimited mode, call by call. *)
Lemma findPaged_unlimited_run o q proj pop cq (w : World) :
  limit o = Some (JNum 0) ->
  pluginFlag pluginOptions dontAllowUnlimitedResults = false ->
  generateCursorQuery o = Ok cq ->
  let query := {| andCursor := cq; andBase := default emptyFilter q |} in
  let populate := default noPopulate pop in
  let sort := generateSort o in
  let w2 := logEvent (EvStore (ReqFind query proj sort (JNum 0) populate))
              (logEvent (EvSetLimit (Some (JNum 0))) w) in
  let w3 := setArray (nextLoc w2) (find query proj sort (JNum 0) populate) w2 in
  findPaged pluginOptions o q proj pop w =
    if pluginFlag pluginOptions dontReturnTotalDocs
    then prepareResponse (nextLoc w2) o None w3
    else prepareResponse (nextLoc w2) o (Some (countDocuments q))
           (logEvent (EvStore (ReqCountDocuments q)) w3).
Proof.
  intros Hl Hflag Hq. rewrite findPaged_run.
  destruct (unlimited_assigned _ Hl Hflag) as (Ha & Hu & Ho).
  cbv zeta. rewrite Ha, Hu, Ho, Hq. reflexivity.
Qed.

(** [aggregatePaged] in unlimited mode, call by call. *)
Lemma aggregatePaged_unlimited_run o stages match_ (w : World) :
  limit o = Some (JNum 0) ->
  pluginFlag pluginOptions dontAllowUnlimitedResults = false ->
  generateCursorQuery o = Ok match_ ->
  let cap := StLimit (JNum 0) in
  let skip := if (0 <? length (keys match_))%nat then [StMatch match_] else [] in
  let sort := StSort (generateSort o) in
  let faceted :=
    ([sort] ++ map StUser stages ++ [StFacet (skip ++ [cap]) [StCount "count"]])%list in
  let plain := ([sort] ++ map StUser stages ++ skip ++ [cap])%list in
  let sent (pipeline : list Stage) :=
    logEvent (EvStore (ReqAggregate pipeline))
      (logEvent (EvSetLimit (Some (JNum 0))) w) in
  aggregatePaged pluginOptions o (Some stages) w =
    if pluginFlag pluginOptions dontReturnTotalDocs
    then assembleFacet o (aggregateFacet faceted) (sent faceted)
    else prepareResponse (nextLoc (sent plain)) o None
           (setArray (nextLoc (sent plain)) (aggregate plain) (sent plain)).
Proof.
  intros Hl Hflag Hq. rewrite (aggregatePaged_run _ _ _ _ Hq).
  unfold builtPipeline.
  destruct (unlimited_assigned _ Hl Hflag) as (Ha & Hu & Ho).
  cbv zeta. rewrite Ha, Hu, Ho.
  destruct (pluginFlag pluginOptions dontReturnTotalDocs); reflexivity.
Qed.

(** C5: with limit 0 and unlimited results allowed, both operations send
    the store a fetch with limit 0 (no cap); every batch, whatever its
    size, is returned untrimmed ([hasMore] is false), and [hasNext] is set
    only by a supplied before-cursor. *)
Theorem unlimited_mode o q proj pop stages cq (w : World) :
  limit o = Some (JNum 0) ->
  pluginFlag pluginOptions dontAllowUnlimitedResults = false ->
  generateCursorQuery o = Ok cq ->
  let query := {| andCursor := cq; andBase := default emptyFilter q |} in
  let fetch := ReqFind query proj (generateSort o) (JNum 0) (default noPopulate pop) in
  let B := find query proj (generateSort o) (JNum 0) (default noPopulate pop) in
  let page := if truthyStr (previous o) then rev B else B in
  (forall B' : list Doc, hasMoreOf B' o = false) /\
  In (EvStore fetch) (events (snd (findPaged pluginOptions o q proj pop w))) /\
  (forall r w', findPaged pluginOptions o q proj pop w = (Ok r, w') ->
     contents w' (docs r) = page /\
     (hasNext r = true <-> supplied (previous o))) /\
  (exists pipeline,
      In (EvStore (ReqAggregate pipeline))
        (events (snd (aggregatePaged pluginOptions o (Some stages) w))) /\
      (last pipeline = Some (StLimit (JNum 0)) \/
       exists results counts,
         last pipeline = Some (StFacet results counts) /\
         last results = Some (StLimit (JNum 0)))) /\
  (forall r w', aggregatePaged pluginOptions o (Some stages) w = (Ok r, w') ->
     hasNext r = true <-> supplied (previous o)).
Proof.
  intros Hl Hflag Hq query fetch B page.
  split; [intros B'; by apply hasMoreOf_unlimited|].
  rewrite (findPaged_unlimited_run _ _ _ _ _ _ Hl Hflag Hq).
  rewrite (aggregatePaged_unlimited_run _ _ _ _ Hl Hflag Hq).
  cbv zeta. fold query. fold fetch. fold B.
  split; [|split; [|split]].
  - destruct (pluginFlag pluginOptions dontReturnTotalDocs); rewrite prepareResponse_events;
      cbn [setArray logEvent events]; rewrite !in_app_iff; cbn; tauto.
  - intros r w' Hrun.
    destruct (pluginFlag pluginOptions dontReturnTotalDocs);
      destruct (prepareResponse_unlimited _ _ _ _ _ _ Hl Hrun) as (-> & Hn & _);
      rewrite ?contents_logEvent, ResponseFacts.contents_setArray; done.
  - destruct (pluginFlag pluginOptions dontReturnTotalDocs); eexists;
      (split; [rewrite ?assembleFacet_events, ?prepareResponse_events;
               cbn [setArray logEvent events];
               rewrite !in_app_iff; cbn; right; left; reflexivity|]).
    + right. eexists _, _. cbn [app]. by rewrite last_cons_snoc, last_snoc.
    + left. cbn [app]. by rewrite app_assoc, last_cons_snoc.
  - intros r w' Hrun.
    destruct (pluginFlag pluginOptions dontReturnTotalDocs).
    + apply assembleFacet_Ok in Hrun as (facet & count & rest & _ & _ & Hrun).
      by destruct (prepareResponse_unlimited _ _ _ _ _ _ Hl Hrun) as (_ & Hn & _).
    + by destruct (prepareResponse_unlimited _ _ _ _ _ _ Hl Hrun) as (_ & Hn & _).
Qed.

End IndexFacts.

Import Fixtures.

Lemma aggregatePaged_total_inverted_witness :
  exists r w',
    @aggregatePaged plain codec people peopleStore peopleQuery None
      (request (Some (JNum 2)) None None) (Some []) noHeap = (Ok r, w') /\
    totalDocs r = None.
Proof.
  eexists _, _. split; [vm_compute; reflexivity|].
  pose proof (@aggregatePaged_total_inverted plain codec people peopleStore
                peopleQuery None (request (Some (JNum 2)) None None)
                (Some []) noHeap _ _ eq_refl) as [Hset _].
  destruct (totalDocs _) as [n|]; [|reflexivity].
  discriminate (Hset (mk_is_Some _ _ eq_refl)).
Defined.

Lemma aggregatePaged_invalid_limit_witness :
  events (snd (@aggregatePaged plain codec people peopleStore peopleQuery None
                 (request (Some (JNum (-5))) None None) (Some []) noHeap)) =
  [EvSetLimit (Some (JNum 10));
   EvStore (@ReqAggregate people
              [@StSort people byAge; @StLimit people (JNum (-4))])].
Proof.
  destruct (@aggregatePaged_invalid_limit plain codec people peopleStore peopleQuery
              None (request (Some (JNum (-5))) None None) [] [] noHeap
              eq_refl eq_refl) as [_ Hrun].
  rewrite Hrun. vm_compute. reflexivity.
Defined.

Lemma unlimited_mode_witness :
  exists r w',
    @findPaged plain codec people peopleStore peopleQuery None
      (request (Some (JNum 0)) None None) None None None noHeap = (Ok r, w') /\
    contents w' (docs r) = [ann; bob; cat] /\
    (hasNext r = true <-> False).
Proof.
  eexists _, _. split; [vm_compute; reflexivity|].
  destruct (@unlimited_mode plain codec people peopleStore peopleQuery None
              (request (Some (JNum 0)) None None) None None None [] []
              noHeap eq_refl eq_refl eq_refl) as (_ & _ & Hfind & _).
  destruct (Hfind _ _ eq_refl) as [Hpage Hnext].
  split; [exact Hpage|].
  rewrite Hnext. unfold supplied. cbn. split; [discriminate | tauto].
Defined.

End IndexFacts.

(** * The round trip of the cursor codec *)

Module CodecFacts.

Import Stdlib.Init.Byte.
Local Open Scope N_scope.
Local Open Scope list_scope.

(** ** Bytes and little-endian numbers *)

Lemma to_N_lt (b : byte) : Byte.to_N b < 256.
Proof. pose proof (Byte.to_N_bounded b). lia. Qed.

Lemma to_N_byteOfN (n : N) : Byte.to_N (byteOfN n) = n mod 256.
Proof.
  unfold byteOfN.
  destruct (Byte.of_N (n mod 256)) as [b|] eqn:E.
  - by apply Byte.to_of_N.
  - apply Byte.of_N_None_iff in E.
    pose proof (N.mod_upper_bound n 256). lia.
Qed.

Lemma byteOfN_to_N (n : N) (b : byte) : n mod 256 = Byte.to_N b -> byteOfN n = b.
Proof.
  intros E. unfold byteOfN. rewrite E, Byte.of_to_N. reflexivity.
Qed.

Lemma length_littleEndian k n : length (littleEndian k n) = k.
Proof. revert n. induction k as [|k IH]; intros n; cbn; [done | by rewrite IH]. Qed.

Lemma ofLittleEndian_littleEndian k n :
  n < 256 ^ N.of_nat k -> ofLittleEndian (littleEndian k n) = n.
Proof.
  revert n. induction k as [|k IH]; intros n Hn.
  - cbn in *. lia.
  - cbn [littleEndian ofLittleEndian]. rewrite to_N_byteOfN, IH.
    + symmetry. rewrite N.add_comm. apply N.div_mod. lia.
    + rewrite Nat2N.inj_succ, N.pow_succ_r' in Hn.
      apply N.Div0.div_lt_upper_bound. lia.
Qed.

Lemma int64OfBytes_int64Bytes (z : Z) :
  (- 2 ^ 63 <= z < 2 ^ 63)%Z -> int64OfBytes (int64Bytes z) = z.
Proof.
  intros Hz. unfold int64OfBytes, int64Bytes.
  assert (Hm : (0 <= z mod 2 ^ 64 < 2 ^ 64)%Z) by (apply Z.mod_pos_bound; lia).
  rewrite ofLittleEndian_littleEndian.
  - rewrite Z2N.id by lia.
    destruct (Z.ltb_spec (z mod 2 ^ 64) (2 ^ 63)) as [Hlt|Hge].
    + destruct (Z.le_gt_cases 0 z).
      * rewrite Z.mod_small; lia.
      * exfalso. rewrite <- (Z.mod_add z 1) in Hlt by lia.
        rewrite Z.mod_small in Hlt; lia.
    + destruct (Z.le_gt_cases 0 z).
      * rewrite Z.mod_small in Hge; lia.
      * rewrite <- (Z.mod_add z 1) by lia. rewrite Z.mod_small; lia.
  - change (256 ^ N.of_nat 8) with (Z.to_N (2 ^ 64)). lia.
Qed.

(** ** One value, then a sequence *)

Lemma prefix_read (k : nat) (p rest : list byte) :
  length p = k ->
  (k <=? length (p ++ rest))%nat = true /\
  firstn k (p ++ rest) = p /\ skipn k (p ++ rest) = rest.
Proof.
  intros <-. repeat split.
  - apply Nat.leb_le. rewrite length_app. lia.
  - apply take_app_length.
  - apply drop_app_length.
Qed.

Lemma length_int64Bytes z : length (int64Bytes z) = 8%nat.
Proof. apply length_littleEndian. Qed.

Lemma length_list_byte_of_string s :
  length (list_byte_of_string s) = String.length s.
Proof.
  unfold list_byte_of_string. rewrite length_map.
  induction s as [|a s IH]; [reflexivity|]. cbn. by rewrite IH.
Qed.

Lemma signed_range z :
  (- 2 ^ 63 <=? z)%Z && (z <? 2 ^ 63)%Z = true -> (- 2 ^ 63 <= z < 2 ^ 63)%Z.
Proof. rewrite andb_true_iff, Z.leb_le, Z.ltb_lt. tauto. Qed.

Lemma parseValue_serializeValue (v : Value) (rest : list byte) :
  supported v = true ->
  parseValue (serializeValue v ++ rest) = Some (v, rest).
Proof.
  destruct v as [| |b|z|bits|s|ms|bs|fields|items]; cbn [supported];
    intros Hs; try discriminate; unfold parseValue, serializeValue;
    cbn [app]; cbv beta zeta.
  - reflexivity.
  - destruct (prefix_read 8 (int64Bytes z) rest (length_int64Bytes z))
      as (-> & -> & ->).
    by rewrite int64OfBytes_int64Bytes by by apply signed_range.
  - destruct (prefix_read 8 (littleEndian 8 bits) rest (length_littleEndian _ _))
      as (-> & -> & ->).
    rewrite ofLittleEndian_littleEndian; [done|].
    apply N.ltb_lt in Hs. exact Hs.
  - set (body := list_byte_of_string s).
    set (len := littleEndian 4 (N.of_nat (length body))).
    rewrite <- app_assoc.
    destruct (prefix_read 4 len (body ++ rest) (length_littleEndian _ _))
      as (-> & -> & ->).
    subst len. rewrite ofLittleEndian_littleEndian.
    + rewrite Nat2N.id.
      destruct (prefix_read (length body) body rest eq_refl) as (-> & -> & ->).
      subst body. by rewrite string_of_list_byte_of_string.
    + subst body. rewrite length_list_byte_of_string.
      apply N.ltb_lt in Hs. exact Hs.
  - destruct (prefix_read 8 (int64Bytes ms) rest (length_int64Bytes ms))
      as (-> & -> & ->).
    by rewrite int64OfBytes_int64Bytes by by apply signed_range.
  - apply Nat.eqb_eq in Hs.
    assert (Hid : firstn 12 (bs ++ repeat x00 12) = bs).
    { rewrite <- Hs. apply take_app_length. }
    rewrite Hid.
    by destruct (prefix_read 12 bs rest Hs) as (-> & -> & ->).
Qed.

Lemma serializeValue_nonempty v : (0 < length (serializeValue v))%nat.
Proof. destruct v; cbn; lia. Qed.

Lemma parse_serialize (vs : list Value) :
  Forall (fun v => supported v = true) vs ->
  forall fuel, (length (serialize vs) <= fuel)%nat ->
  parse fuel (serialize vs) = Some vs.
Proof.
  induction 1 as [|v vs Hv _ IH]; intros fuel Hfuel.
  - by destruct fuel.
  - unfold serialize in *. cbn [map concat] in *.
    pose proof (serializeValue_nonempty v) as Hpos.
    rewrite length_app in Hfuel.
    destruct fuel as [|fuel]; [lia|].
    destruct (serializeValue v ++ concat (map serializeValue vs)) as [|b bs] eqn:E.
    { apply (f_equal length) in E. rewrite length_app in E. cbn in E. lia. }
    cbn [parse]. rewrite <- E, (parseValue_serializeValue _ _ Hv), IH; [done|lia].
Qed.

Lemma deserialize_serialize (vs : list Value) :
  Forall (fun v => supported v = true) vs ->
  deserialize (serialize vs) = Some vs.
Proof. intros Hs. unfold deserialize. by apply parse_serialize. Qed.

(** ** Base64url *)

Lemma list_ind3 {A} (P : list A -> Prop) :
  P [] -> (forall a, P [a]) -> (forall a b, P [a; b]) ->
  (forall a b c l, P l -> P (a :: b :: c :: l)) ->
  forall l, P l.
Proof.
  intros H0 H1 H2 H3 l.
  assert (Hall : P l /\ (forall a, P (a :: l)) /\ (forall a b, P (a :: b :: l))).
  { induction l as [|x l (IH0 & IH1 & IH2)]; [by auto|].
    split; [apply IH1 | split; [intros; apply IH2 | intros; by apply H3]]. }
  apply Hall.
Qed.

Lemma group3 (a b c : N) :
  a < 256 -> b < 256 -> c < 256 ->
  let n := a * 65536 + b * 256 + c in
  n / 262144 < 64 /\
  n / 262144 * 262144 + (n / 4096) mod 64 * 4096 + (n / 64) mod 64 * 64 + n mod 64 = n /\
  (n / 65536) mod 256 = a /\ (n / 256) mod 256 = b /\ n mod 256 = c.
Proof. intros Ha Hb Hc n. subst n. repeat split; zify; Z.to_euclidean_division_equations; lia. Qed.

Lemma group2 (a b : N) :
  a < 256 -> b < 256 ->
  let n := a * 1024 + b * 4 in
  n / 4096 < 64 /\
  n / 4096 * 4096 + (n / 64) mod 64 * 64 + n mod 64 = n /\
  (n / 1024) mod 256 = a /\ (n / 4) mod 256 = b.
Proof. intros Ha Hb n. subst n. repeat split; zify; Z.to_euclidean_division_equations; lia. Qed.

Lemma group1 (a : N) :
  a < 256 ->
  let n := a * 16 in
  n / 64 < 64 /\ n / 64 * 64 + n mod 64 = n /\ (n / 16) mod 256 = a.
Proof. intros Ha n. subst n. repeat split; zify; Z.to_euclidean_division_equations; lia. Qed.

Lemma ofSextets_sextets (bs : list byte) : ofSextets (sextets bs) = Some bs.
Proof.
  induction bs as [|a|a b|a b c bs IH] using list_ind3.
  - reflexivity.
  - cbn [sextets ofSextets]. cbv zeta.
    destruct (group1 _ (to_N_lt a)) as (_ & -> & Ha).
    by rewrite (byteOfN_to_N _ a Ha).
  - cbn [sextets ofSextets]. cbv zeta.
    destruct (group2 _ _ (to_N_lt a) (to_N_lt b)) as (_ & -> & Ha & Hb).
    by rewrite (byteOfN_to_N _ a Ha), (byteOfN_to_N _ b Hb).
  - cbn [sextets ofSextets]. cbv zeta. rewrite IH.
    destruct (group3 _ _ _ (to_N_lt a) (to_N_lt b) (to_N_lt c))
      as (_ & -> & Ha & Hb & Hc).
    by rewrite (byteOfN_to_N _ a Ha), (byteOfN_to_N _ b Hb), (byteOfN_to_N _ c Hc).
Qed.

Lemma sextets_lt (bs : list byte) : Forall (fun n => n < 64) (sextets bs).
Proof.
  assert (Hmod : forall n, n mod 64 < 64) by (intros; by apply N.mod_lt).
  induction bs as [|a|a b|a b c bs IH] using list_ind3; cbn [sextets]; cbv zeta.
  - constructor.
  - destruct (group1 _ (to_N_lt a)) as (Hp & _). repeat constructor; auto.
  - destruct (group2 _ _ (to_N_lt a) (to_N_lt b)) as (Hp & _).
    repeat constructor; auto.
  - destruct (group3 _ _ _ (to_N_lt a) (to_N_lt b) (to_N_lt c)) as (Hp & _).
    repeat (constructor; auto).
Qed.

Lemma sextetOfChar_charOfSextet (n : N) :
  n < 64 -> sextetOfChar (charOfSextet n) = Some n.
Proof.
  intros Hn.
  assert (Hall : alphabetChecked = true) by (vm_compute; reflexivity).
  unfold alphabetChecked in Hall. rewrite forallb_forall in Hall.
  specialize (Hall (N.to_nat n)). rewrite N2Nat.id in Hall.
  destruct (sextetOfChar (charOfSextet n)) as [j|].
  - f_equal. apply N.eqb_eq, Hall, in_seq. lia.
  - discriminate Hall. apply in_seq. lia.
Qed.

Lemma mapM_sextets (ss : list N) :
  Forall (fun n => n < 64) ss ->
  mapM sextetOfChar (map charOfSextet ss) = Some ss.
Proof.
  induction 1 as [|n ss Hn _ IH]; [reflexivity|].
  cbn [map mapM]. by rewrite (sextetOfChar_charOfSextet _ Hn), IH.
Qed.

Lemma base64urlDecode_base64urlEncode (bs : list byte) :
  base64urlDecode (base64urlEncode bs) = Some bs.
Proof.
  unfold base64urlDecode, base64urlEncode.
  rewrite list_ascii_of_string_of_list_ascii, (mapM_sextets _ (sextets_lt bs)).
  apply ofSextets_sextets.
Qed.

(** The token needs no escaping in a URL: it is made of letters of the
    base64url alphabet only. *)
Lemma base64urlEncode_alphabet (bs : list byte) :
  Forall (fun c => In c alphabet) (list_ascii_of_string (base64urlEncode bs)).
Proof.
  unfold base64urlEncode. rewrite list_ascii_of_string_of_list_ascii.
  apply Forall_map. eapply Forall_impl; [apply sextets_lt|].
  intros n Hn. cbn beta in Hn |- *. unfold charOfSextet. apply nth_In.
  change (length alphabet) with 64%nat. lia.
Qed.

(** ** The round trip *)

(** C8: for every tuple of supported typed values (integers, floating
    point, strings, date/time instants, unique identifiers, null), decoding
    the encoding of the tuple gives the tuple back, each value with its
    original type. *)
Theorem decode_encode (v : list Value) :
  Forall (fun x => supported x = true) v ->
  @decode codec (@encode codec v) = Ok v.
Proof.
  intros Hs. cbn [decode encode codec]. unfold decodeCursor, encodeCursor.
  by rewrite base64urlDecode_base64urlEncode, (deserialize_serialize _ Hs).
Qed.

Lemma decode_encode_witness :
  @decode codec
    (@encode codec
       [VInt 20; VDouble 4620693217682128896; VString "Ann"; VDate (-86400000);
        Fixtures.oid x2a; VNull]) =
  Ok [VInt 20; VDouble 4620693217682128896; VString "Ann"; VDate (-86400000);
      Fixtures.oid x2a; VNull].
Proof.
  apply decode_encode. repeat constructor.
Defined.

End CodecFacts.

(** * Further properties of the page assembler *)

Module ResponseMore.
Section ResponseMore.
Context `{ObjectModel} `{CursorCodec} {Request : Type}.

Abbreviation World := (World Request).

Lemma run_world l o t (w : World) :
  snd (prepareResponse l o t w) = afterPage l o w.
Proof. by rewrite ResponseFacts.prepareResponse_run. Qed.

Lemma page_after_run l o t (w : World) :
  contents (snd (prepareResponse l o t w)) l = pageOf (contents w l) o.
Proof. rewrite run_world. apply ResponseFacts.contents_afterPage. Qed.

(** X1: [prepareResponse] returns a result exactly when the page is not
    empty or no flag is raised (no cursor supplied, no overflow); it throws
    exactly when the page is empty and a flag is raised, and what it throws
    is a [TypeError]. *)
Theorem assembly_outcome l o t (w : World) :
  let B := contents w l in
  let page := contents (snd (prepareResponse l o t w)) l in
  let flagged :=
    truthyStr (next o) || truthyStr (previous o) || hasMoreOf B o in
  ((exists r, fst (prepareResponse l o t w) = Ok r) <->
     page <> [] \/ flagged = false) /\
  (fst (prepareResponse l o t w) = Throw TypeError <->
     page = [] /\ flagged = true) /\
  (forall e, fst (prepareResponse l o t w) = Throw e -> e = TypeError).
Proof.
  intros B page flagged. subst page. rewrite page_after_run. fold B.
  rewrite ResponseFacts.prepareResponse_run. cbn [fst]. fold B.
  unfold edgeCursor, prepareCursor, flagNext, flagPrevious. subst flagged.
  destruct (pageOf B o) as [|d page] eqn:Hpage.
  - cbn [last head].
    destruct (truthyStr (next o)), (truthyStr (previous o)), (hasMoreOf B o);
      cbn; repeat split; try done; try (intros [? ?]; done);
      try (intros [?|?]; done); try (by intros [? ?]); eauto;
      try (intros e He; by inversion He).
  - assert (Hl : exists dl, last (d :: page) = Some dl).
    { destruct (last (d :: page)) eqn:E; [eauto | by apply last_None in E]. }
    destruct Hl as [dl ->]. cbn [head].
    destruct (truthyStr (next o)), (truthyStr (previous o)), (hasMoreOf B o);
      cbn; repeat split; try done; eauto; try (by intros [? ?]).
Qed.

(** X2: whatever the limit (also [NaN], [undefined], zero or negative),
    the array after assembly is a prefix of the batch that lacks at most
    its last document, reversed exactly when a before-cursor was supplied:
    no document is invented, duplicated or reordered otherwise. *)
Theorem page_is_batch_prefix l o t (w : World) :
  let B := contents w l in
  let page := contents (snd (prepareResponse l o t w)) l in
  exists k,
    (length B - 1 <= k <= length B)%nat /\
    page = (if truthyStr (previous o) then rev (firstn k B) else firstn k B).
Proof.
  intros B page. subst page. rewrite page_after_run. fold B.
  unfold pageOf, trimmed.
  destruct (hasMoreOf B o).
  - exists (pred (length B)). split; [lia|].
    by rewrite <- removelast_firstn_len.
  - exists (length B). split; [lia|]. by rewrite firstn_all.
Qed.

(** X3: with a falsy limit ([NaN], [undefined] or [0]) nothing is trimmed,
    and the flags say only which cursor was supplied. *)
Theorem falsy_limit_never_trims l o t (w : World) :
  truthyNum (limit o) = false ->
  let B := contents w l in
  contents (snd (prepareResponse l o t w)) l =
    (if truthyStr (previous o) then rev B else B) /\
  (forall r, fst (prepareResponse l o t w) = Ok r ->
     hasNext r = truthyStr (previous o) /\
     hasPrevious r = truthyStr (next o)).
Proof.
  intros Hl B.
  assert (Hm : hasMoreOf B o = false) by (unfold hasMoreOf; by rewrite Hl).
  split.
  - rewrite page_after_run. fold B. unfold pageOf, trimmed. by rewrite Hm.
  - intros r Hr.
    destruct (prepareResponse l o t w) as [out w'] eqn:Hrun. cbn in Hr. subst out.
    destruct (ResponseFacts.prepareResponse_Ok _ _ _ _ _ _ Hrun)
      as (_ & _ & -> & -> & _).
    fold B. unfold flagNext, flagPrevious.
    by rewrite Hm, andb_false_r, !orb_false_r.
Qed.

(** X4: a negative limit is truthy and below every length, so overflow is
    always detected: the last document of any batch is dropped and
    [hasNext] is true. *)
Theorem negative_limit_always_trims l o t z (w : World) :
  limit o = Some (JNum z) -> (z < 0)%Z ->
  let B := contents w l in
  contents (snd (prepareResponse l o t w)) l =
    (if truthyStr (previous o) then rev (removelast B) else removelast B) /\
  (forall r, fst (prepareResponse l o t w) = Ok r ->
     hasNext r = true /\
     hasPrevious r = truthyStr (next o) || truthyStr (previous o)).
Proof.
  intros Hl Hz B.
  assert (Hm : hasMoreOf B o = true).
  { unfold hasMoreOf. rewrite Hl. cbn.
    destruct (Z.eqb_spec z 0); [lia|]. apply Z.ltb_lt. lia. }
  split.
  - rewrite page_after_run. fold B. unfold pageOf, trimmed. by rewrite Hm.
  - intros r Hr.
    destruct (prepareResponse l o t w) as [out w'] eqn:Hrun. cbn in Hr. subst out.
    destruct (ResponseFacts.prepareResponse_Ok _ _ _ _ _ _ Hrun)
      as (_ & _ & -> & -> & _).
    fold B. unfold flagNext, flagPrevious.
    by rewrite Hm, andb_true_r, orb_true_r.
Qed.

(** X5: the total is carried through untouched and plays no part in
    assembly: with another total the heap ends the same, the same call
    throws, and a result differs in its [totalDocs] only. *)
Theorem total_is_only_carried l o t t' (w : World) :
  snd (prepareResponse l o t' w) = snd (prepareResponse l o t w) /\
  fst (prepareResponse l o t' w) =
    match fst (prepareResponse l o t w) with
    | Ok r => Ok (withTotal t' r)
    | Throw e => Throw e
    end /\
  (forall r, fst (prepareResponse l o t w) = Ok r -> totalDocs r = t).
Proof.
  rewrite !ResponseFacts.prepareResponse_run. cbn [fst snd].
  destruct (edgeCursor (flagNext _ _) _ _); [|by repeat split].
  destruct (edgeCursor (flagPrevious _ _) _ _); [|by repeat split].
  repeat split. intros r Hr. by inversion Hr.
Qed.

(** X6: assembly is not idempotent.  For a positive limit [N] and a batch
    within the fetch cap [N + 1], assembling the same array a second time
    leaves it in fetch order (a backward page is reversed back), and the
    second result has lost the overflow: its flags say only which cursor
    was supplied. *)
Theorem second_assembly l o t N (w : World) :
  limit o = Some (JNum N) -> (0 < N)%Z ->
  let B := contents w l in
  (Z.of_nat (length B) <= N + 1)%Z ->
  let kept := if (N <? Z.of_nat (length B))%Z then removelast B else B in
  let w1 := snd (prepareResponse l o t w) in
  contents w1 l = (if truthyStr (previous o) then rev kept else kept) /\
  contents (snd (prepareResponse l o t w1)) l = kept /\
  (forall r, fst (prepareResponse l o t w1) = Ok r ->
     hasNext r = truthyStr (previous o) /\
     hasPrevious r = truthyStr (next o)).
Proof.
  intros Hl HN B Hcap kept w1.
  assert (Hpage : contents w1 l = if truthyStr (previous o) then rev kept else kept).
  { subst w1. rewrite page_after_run. fold B. unfold pageOf, trimmed.
    by rewrite (ResponseFacts.hasMoreOf_positive _ _ _ Hl HN). }
  assert (Hkept : (Z.of_nat (length kept) <= N)%Z).
  { subst kept. destruct (Z.ltb_spec N (Z.of_nat (length B))); [|lia].
    rewrite removelast_firstn_len, length_firstn. lia. }
  assert (Hm : hasMoreOf (contents w1 l) o = false).
  { rewrite (ResponseFacts.hasMoreOf_positive _ _ _ Hl HN), Hpage.
    apply Z.ltb_ge. destruct (truthyStr _); rewrite ?length_rev; lia. }
  split; [exact Hpage|]. split.
  - rewrite page_after_run. unfold pageOf, trimmed. rewrite Hm, Hpage.
    destruct (truthyStr _); [apply rev_involutive | done].
  - intros r Hr.
    destruct (prepareResponse l o t w1) as [out w2] eqn:Hrun. cbn in Hr. subst out.
    destruct (ResponseFacts.prepareResponse_Ok _ _ _ _ _ _ Hrun)
      as (_ & _ & -> & -> & _).
    unfold flagNext, flagPrevious.
    by rewrite Hm, andb_false_r, !orb_false_r.
Qed.

End ResponseMore.

Import Fixtures.

Lemma falsy_limit_never_trims_witness :
  contents
    (snd (@prepareResponse plain codec unit 1%positive
            (request (Some JNaN) None (Some "c")) None
            (heapOf [cat; bob; ann]))) 1%positive =
  [ann; bob; cat].
Proof.
  destruct (@falsy_limit_never_trims plain codec unit 1%positive
              (request (Some JNaN) None (Some "c")) None
              (heapOf [cat; bob; ann]) eq_refl) as [Hpage _].
  etransitivity; [exact Hpage | vm_compute; reflexivity].
Defined.

Lemma negative_limit_always_trims_witness :
  contents
    (snd (@prepareResponse plain codec unit 1%positive
            (request (Some (JNum (-1))) None None) None
            (heapOf [ann; bob]))) 1%positive =
  [ann].
Proof.
  destruct (@negative_limit_always_trims plain codec unit 1%positive
              (request (Some (JNum (-1))) None None) None (-1)
              (heapOf [ann; bob]) eq_refl ltac:(lia)) as [Hpage _].
  etransitivity; [exact Hpage | vm_compute; reflexivity].
Defined.

Lemma second_assembly_witness :
  let o := request (Some (JNum 2)) None (Some "c") in
  let w1 := snd (@prepareResponse plain codec unit 1%positive o None
                   (heapOf [cat; bob; ann])) in
  contents w1 1%positive = [bob; cat] /\
  contents (snd (@prepareResponse plain codec unit 1%positive o None w1)) 1%positive =
    [cat; bob].
Proof.
  intros o w1.
  destruct (@second_assembly plain codec unit 1%positive o None 2
              (heapOf [cat; bob; ann]) eq_refl ltac:(lia)
              ltac:(vm_compute; discriminate))
    as (Hfirst & Hsecond & _).
  split.
  - etransitivity; [exact Hfirst | vm_compute; reflexivity].
  - etransitivity; [exact Hsecond | vm_compute; reflexivity].
Defined.

End ResponseMore.

(** * Further properties of the cursor value tuple *)

Module CursorMore.

Import Fixtures MoreFixtures.

Lemma split_plain_key (s : string) :
  hasDot s = false -> split "." s = [s].
Proof.
  induction s as [|a s IH]; [reflexivity|]. cbn [hasDot split].
  destruct (Ascii.eqb a "."); [discriminate|]. cbn [orb].
  intros Hs. by rewrite (IH Hs).
Qed.

Lemma split_dotted_key (a b : string) :
  hasDot a = false -> split "." (a ++ "." ++ b) = a :: split "." b.
Proof.
  induction a as [|c a IH]; intros Ha.
  - reflexivity.
  - cbn [hasDot] in Ha. simpl.
    destruct (Ascii.eqb c "."); [discriminate|]. cbn [orb] in Ha.
    by rewrite (IH Ha).
Qed.

Section CursorMore.
Context `{ObjectModel}.

Lemma ownField_missing (k : string) (doc : Doc) :
  ~ In k (map fst doc) -> ownField k doc = None.
Proof.
  induction doc as [|[k' v] doc IH]; [reflexivity|].
  cbn [map fst In ownField]. intros Hnot.
  destruct (String.eqb_spec k k') as [->|_]; [tauto|].
  apply IH. tauto.
Qed.

Lemma path_of_nothing (ks : list string) (v : Value) :
  ks <> [] -> v = VUndefined \/ v = VNull -> path ks v = VUndefined.
Proof. destruct ks; [done|]. by intros _ [-> | ->]. Qed.

(** X7: for sort keys without a dot, none of them [_id], the value tuple
    holds [doc[key]] for each key, in order, then [doc._id], and nothing is
    thrown: [doc[key]] is the document's own field of that name when it has
    one, and otherwise what the document inherits under that name. *)
Theorem plain_keys_read_fields (doc : Doc) (so : SortOptions) :
  Forall (fun key => hasDot key = false /\ key <> "_id") (map fst so) ->
  cursorValues doc so =
    (map (fun key => getProp (VObject doc) key) (map fst so)
       ++ [getProp (VObject doc) "_id"])%list /\
  (forall key value rest,
     ~ In key (map fst rest) ->
     getProp (VObject (rest ++ (key, value) :: doc)%list) key = value) /\
  (forall key,
     ~ In key (map fst doc) ->
     getProp (VObject doc) key = inherited (VObject doc) key).
Proof.
  intros Hkeys. split; [|split].
  - unfold cursorValues. f_equal.
    induction (map fst so) as [|k ks IH]; [reflexivity|].
    apply Forall_cons in Hkeys as [[Hdot Hid] Hks].
    cbn [List.filter]. destruct (String.eqb_spec k "_id"); [done|].
    cbn [negb map]. rewrite (IH Hks), (split_plain_key _ Hdot). reflexivity.
  - intros key value rest Hnot. cbn [getProp].
    assert (Hown : ownField key (rest ++ (key, value) :: doc) = Some value).
    { induction rest as [|[k' v'] rest IH]; cbn [app ownField].
      - by rewrite String.eqb_refl.
      - cbn [map fst In] in Hnot.
        destruct (String.eqb_spec key k') as [->|_]; [tauto|].
        apply IH. tauto. }
    by rewrite Hown.
  - intros key Hnot. cbn [getProp]. by rewrite (ownField_missing _ _ Hnot).
Qed.

(** X8: a dotted sort key [a.b] is read along its path: the value is what
    the rest of the path finds in [doc[a]], and it is [undefined], with
    nothing thrown, when [doc[a]] is [undefined] or [null]. *)
Theorem dotted_key_reads_nested (doc : Doc) (a b : string) :
  hasDot a = false ->
  path (split "." (a ++ "." ++ b)) (VObject doc) =
    path (split "." b) (getProp (VObject doc) a) /\
  (getProp (VObject doc) a = VUndefined \/ getProp (VObject doc) a = VNull ->
   path (split "." (a ++ "." ++ b)) (VObject doc) = VUndefined).
Proof.
  intros Ha. rewrite (split_dotted_key _ _ Ha). cbn [path].
  split; [reflexivity|].
  apply path_of_nothing, CursorFacts.split_not_nil.
Qed.

End CursorMore.

Lemma plain_keys_read_fields_witness :
  @cursorValues plain ann [("age", Ascending); ("name", Descending)] =
  [VInt 20; VUndefined; oid Byte.x01].
Proof.
  destruct (@plain_keys_read_fields plain ann
              [("age", Ascending); ("name", Descending)]) as [Hv _].
  - repeat constructor; discriminate.
  - etransitivity; [exact Hv | reflexivity].
Defined.

Lemma dotted_key_reads_nested_witness :
  @path plain (split "." "home.city") (VObject address) = VString "Oslo" /\
  @path plain (split "." "work.city") (VObject address) = VUndefined.
Proof.
  split.
  - destruct (@dotted_key_reads_nested plain address "home" "city" eq_refl)
      as [Hv _].
    etransitivity; [exact Hv | reflexivity].
  - destruct (@dotted_key_reads_nested plain address "work" "city" eq_refl)
      as [_ Hn].
    apply Hn. right. reflexivity.
Defined.

End CursorMore.

(** * Further properties of the two paged operations *)

Module IndexMore.
Section IndexMore.
Context `{ObjectModel} `{CursorCodec} `{Store} `{!Query}.
Variable pluginOptions : option IPluginOptions.

Abbreviation World := (World Request).

Lemma run_events l o t (w : World) :
  events (snd (prepareResponse l o t w)) = events w.
Proof. apply IndexFacts.prepareResponse_events. Qed.

Lemma afterPage_arrays_ne l l' o (w : World) :
  l' <> l -> arrays (afterPage l o w) !! l' = arrays w !! l'.
Proof.
  intros Hne. unfold afterPage, afterTrim, setArray.
  destruct (truthyStr _), (hasMoreOf _ _); cbn [arrays];
    rewrite ?lookup_insert_ne by done; done.
Qed.

(** Assembly completes when the page is not empty or no flag is raised. *)
Lemma assembles l o t (w : World) :
  pageOf (contents w l) o <> [] \/
  (flagNext (contents w l) o = false /\ flagPrevious (contents w l) o = false) ->
  exists r, prepareResponse l o t w = (Ok r, afterPage l o w).
Proof.
  intros [Hne | [Hn Hp]].
  - by apply ResponseFacts.prepareResponse_completes.
  - rewrite ResponseFacts.prepareResponse_run, Hn, Hp. cbn. eauto.
Qed.

Lemma pipelineCap_built o match_ stages :
  pipelineCap (builtPipeline pluginOptions o match_ stages) =
    Some (if unlimited pluginOptions o then JNum 0 else succ (limit o)).
Proof.
  unfold pipelineCap, builtPipeline.
  destruct (pluginFlag pluginOptions dontReturnTotalDocs); cbn [app].
  - by rewrite IndexFacts.last_cons_snoc, last_snoc.
  - by rewrite app_assoc, IndexFacts.last_cons_snoc.
Qed.

Lemma builtPipeline_head o match_ stages :
  exists tail,
    builtPipeline pluginOptions o match_ stages =
      (StSort (generateSort o) :: map StUser stages ++ tail)%list /\
    tail <> [] /\ Forall (fun st => forall u, st <> StUser u) tail.
Proof.
  unfold builtPipeline.
  destruct (pluginFlag pluginOptions dontReturnTotalDocs); eexists;
    (split; [reflexivity|]).
  - split; [done|]. by repeat constructor.
  - split; [by destruct (0 <? _)%nat|].
    destruct (0 <? _)%nat; by repeat constructor.
Qed.

(** What [findPaged] logs once the cursor is decoded. *)
Lemma findPaged_events o q proj pop cq (w : World) :
  generateCursorQuery (setLimit (assignedLimit pluginOptions o) o) = Ok cq ->
  events (snd (findPaged pluginOptions o q proj pop w)) =
    (events w ++
     [EvSetLimit (assignedLimit pluginOptions o);
      EvStore (ReqFind {| andCursor := cq; andBase := default emptyFilter q |}
                 proj (generateSort o)
                 (if unlimited pluginOptions o then JNum 0
                  else succ (assignedLimit pluginOptions o))
                 (default noPopulate pop))] ++
     (if pluginFlag pluginOptions dontReturnTotalDocs then []
      else [EvStore (ReqCountDocuments q)]))%list.
Proof.
  intros Hq. rewrite IndexFacts.findPaged_run. cbv zeta. rewrite Hq.
  destruct (pluginFlag pluginOptions dontReturnTotalDocs);
    rewrite run_events; cbn [setArray logEvent events];
    by rewrite <- ?app_assoc.
Qed.

(** What [aggregatePaged] logs once the cursor is decoded. *)
Lemma aggregatePaged_events o stages match_ (w : World) :
  generateCursorQuery o = Ok match_ ->
  events (snd (aggregatePaged pluginOptions o (Some stages) w)) =
    (events w ++
     [EvSetLimit (assignedLimit pluginOptions o);
      EvStore (ReqAggregate (builtPipeline pluginOptions o match_ stages))])%list.
Proof.
  intros Hq. rewrite (IndexFacts.aggregatePaged_run _ _ _ _ _ Hq). cbv zeta.
  destruct (pluginFlag pluginOptions dontReturnTotalDocs);
    rewrite ?IndexFacts.assembleFacet_events, ?run_events;
    cbn [setArray logEvent events];
    by rewrite <- ?app_assoc.
Qed.

(** X9: once the cursor is decoded, [findPaged] writes [options.limit],
    sends one [find], and after it one [countDocuments] unless totals are
    switched off; nothing else is sent.  The total attached is the count of
    the caller's own filter, without the cursor filter. *)
Theorem findPaged_requests o q proj pop cq (w : World) :
  generateCursorQuery (setLimit (assignedLimit pluginOptions o) o) = Ok cq ->
  let fetch :=
    ReqFind {| andCursor := cq; andBase := default emptyFilter q |}
      proj (generateSort o)
      (if unlimited pluginOptions o then JNum 0
       else succ (assignedLimit pluginOptions o))
      (default noPopulate pop) in
  events (snd (findPaged pluginOptions o q proj pop w)) =
    (events w ++
     [EvSetLimit (assignedLimit pluginOptions o); EvStore fetch] ++
     (if pluginFlag pluginOptions dontReturnTotalDocs then []
      else [EvStore (ReqCountDocuments q)]))%list /\
  (forall r, fst (findPaged pluginOptions o q proj pop w) = Ok r ->
     totalDocs r =
       if pluginFlag pluginOptions dontReturnTotalDocs then None
       else Some (countDocuments q)).
Proof.
  intros Hq fetch. split; [by apply findPaged_events|].
  intros r. rewrite IndexFacts.findPaged_run. cbv zeta. rewrite Hq.
  destruct (pluginFlag pluginOptions dontReturnTotalDocs); intros Hr;
    match type of Hr with
    | fst ?run = _ => destruct run as [out w'] eqn:Hrun
    end; cbn in Hr; subst out;
    apply (IndexFacts.prepareResponse_totalDocs _ _ _ _ _ _ Hrun).
Qed.

(** X10: when decoding the cursor throws, [findPaged] throws the same
    error and sends the store nothing; the caller's [options.limit] has
    already been overwritten. *)
Theorem findPaged_cursor_error o q proj pop e (w : World) :
  generateCursorQuery (setLimit (assignedLimit pluginOptions o) o) = Throw e ->
  findPaged pluginOptions o q proj pop w =
    (Throw e, logEvent (EvSetLimit (assignedLimit pluginOptions o)) w).
Proof. intros Hq. rewrite IndexFacts.findPaged_run. cbv zeta. by rewrite Hq. Qed.

(** X11: when decoding the cursor throws, [aggregatePaged] throws the same
    error before anything else happens: no request is sent and
    [options.limit] is not written. *)
Theorem aggregatePaged_cursor_error o pipeline e (w : World) :
  generateCursorQuery o = Throw e ->
  aggregatePaged pluginOptions o pipeline w = (Throw e, w).
Proof. intros Hq. unfold aggregatePaged, bind, liftOutcome. by rewrite Hq. Qed.

(** X12: called without a pipeline, [aggregatePaged] throws a [TypeError]
    after it has overwritten [options.limit]; the store is sent nothing. *)
Theorem aggregatePaged_without_pipeline o match_ (w : World) :
  generateCursorQuery o = Ok match_ ->
  aggregatePaged pluginOptions o None w =
    (Throw TypeError, logEvent (EvSetLimit (assignedLimit pluginOptions o)) w).
Proof.
  intros Hq.
  unfold aggregatePaged, assignLimit, bind, liftOutcome, emit, ret, throw.
  rewrite Hq. fold (assignedLimit pluginOptions o).
  by destruct (pluginFlag pluginOptions dontReturnTotalDocs).
Qed.

(** X13: once the cursor is decoded, [aggregatePaged] sends the store one
    aggregate and nothing else (no separate count, no find).  Its pipeline
    sorts first, runs the caller's stages next, in their order, and only
    then the stages the plugin adds; the [$limit] it ends with is computed
    from the limit as the caller passed it. *)
Theorem aggregatePaged_requests o stages match_ (w : World) :
  generateCursorQuery o = Ok match_ ->
  exists pipeline tail,
    events (snd (aggregatePaged pluginOptions o (Some stages) w)) =
      (events w ++
       [EvSetLimit (assignedLimit pluginOptions o);
        EvStore (ReqAggregate pipeline)])%list /\
    pipeline = (StSort (generateSort o) :: map StUser stages ++ tail)%list /\
    Forall (fun st => forall u, st <> StUser u) tail /\
    pipelineCap pipeline =
      Some (if unlimited pluginOptions o then JNum 0 else succ (limit o)).
Proof.
  intros Hq.
  destruct (builtPipeline_head o match_ stages) as (tail & Hp & _ & Htail).
  exists (builtPipeline pluginOptions o match_ stages), tail.
  split; [by apply aggregatePaged_events|].
  split; [exact Hp|]. split; [exact Htail|]. apply pipelineCap_built.
Qed.

(** Assembly of the first page: no cursor, a positive limit. *)
Lemma first_page_assembly l o t N (w : World) :
  limit o = Some (JNum N) -> (0 < N)%Z ->
  truthyStr (next o) = false -> truthyStr (previous o) = false ->
  let B := contents w l in
  let overflow := (N <? Z.of_nat (length B))%Z in
  exists r,
    prepareResponse l o t w = (Ok r, afterPage l o w) /\
    contents (afterPage l o w) l = (if overflow then removelast B else B) /\
    docs r = l /\ totalDocs r = t /\
    hasPrevious r = false /\ previous_ r = None /\
    hasNext r = overflow /\
    (is_Some (next_ r) <-> overflow = true).
Proof.
  intros Hl HN Hnext Hprev B overflow.
  assert (Hm : hasMoreOf B o = overflow)
    by apply (ResponseFacts.hasMoreOf_positive _ _ _ Hl HN).
  assert (Hpage : pageOf B o = if overflow then removelast B else B).
  { unfold pageOf, trimmed. by rewrite Hprev, Hm. }
  assert (Hfp : flagPrevious B o = false).
  { unfold flagPrevious. by rewrite Hnext, Hprev. }
  assert (Hfn : flagNext B o = overflow).
  { unfold flagNext. by rewrite Hprev, Hm. }
  destruct (assembles l o t w) as [r Hrun].
  { fold B. rewrite Hpage, Hfp, Hfn. subst overflow.
    destruct (Z.ltb_spec N (Z.of_nat (length B))) as [Hgt|_]; [left | by right].
    destruct B as [|d1 [|d2 B']]; cbn in Hgt; try lia. by destruct B'. }
  exists r. split; [exact Hrun|].
  destruct (ResponseFacts.prepareResponse_Ok _ _ _ _ _ _ Hrun)
    as (_ & Hd & Hp & Hn & Ht & Hnc & Hpc).
  fold B in Hp, Hn, Hnc, Hpc. rewrite Hfp in Hp, Hpc. rewrite Hfn in Hn, Hnc.
  rewrite ResponseFacts.contents_afterPage. fold B.
  repeat split; try done.
  - cbn in Hpc. by inversion Hpc.
  - intros Hs. unfold edgeCursor in Hnc. destruct overflow; [done|].
    inversion Hnc as [Hnone]. rewrite <- Hnone in Hs. by destruct Hs.
  - intros Ho. unfold edgeCursor in Hnc. rewrite Ho in Hnc.
    destruct (prepareCursor _ _); inversion Hnc. by eexists.
Qed.

(** X14: the first page.  Without a cursor and with a positive limit [N],
    [findPaged] always returns (given the cursor query and the store do):
    the page is the reply without its overflow document, [hasPrevious] is
    false and there is no previous cursor, and [hasNext] and the next
    cursor are there exactly when the reply held more than [N] documents. *)
Theorem findPaged_first_page o q proj pop cq N (w : World) :
  limit o = Some (JNum N) -> (0 < N)%Z ->
  truthyStr (next o) = false -> truthyStr (previous o) = false ->
  generateCursorQuery o = Ok cq ->
  let B := find {| andCursor := cq; andBase := default emptyFilter q |} proj
             (generateSort o) (JNum (N + 1)) (default noPopulate pop) in
  let overflow := (N <? Z.of_nat (length B))%Z in
  exists r w',
    findPaged pluginOptions o q proj pop w = (Ok r, w') /\
    contents w' (docs r) = (if overflow then removelast B else B) /\
    hasPrevious r = false /\ previous_ r = None /\
    hasNext r = overflow /\
    (is_Some (next_ r) <-> overflow = true).
Proof.
  intros Hl HN Hnext Hprev Hq B overflow.
  rewrite IndexFacts.findPaged_run.
  destruct (IndexFacts.valid_limit_assigned pluginOptions _ _ Hl HN)
    as (Ha & Hu & Ho).
  cbv zeta. rewrite Ha, Hu, Ho, Hq. cbn [succ]. fold B.
  destruct (pluginFlag pluginOptions dontReturnTotalDocs);
    match goal with
    | |- exists r w', prepareResponse ?l _ ?t ?w3 = _ /\ _ =>
        destruct (first_page_assembly l o t N w3 Hl HN Hnext Hprev)
          as (r & Hrun & Hpage & Hd & _ & Hp & Hpc & Hn & Hnc);
        rewrite ?IndexFacts.contents_logEvent,
          ResponseFacts.contents_setArray in Hpage, Hn, Hnc;
        fold B in Hpage, Hn, Hnc;
        exists r; eexists; split; [exact Hrun|]; rewrite Hd;
        exact (conj Hpage (conj Hp (conj Hpc (conj Hn Hnc))))
    end.
Qed.

Lemma zero_capped_assigned o :
  limit o = Some (JNum 0) ->
  pluginFlag pluginOptions dontAllowUnlimitedResults = true ->
  assignedLimit pluginOptions o = defaultLimitOf pluginOptions /\
  unlimited pluginOptions o = false.
Proof.
  intros Hl Hflag. unfold assignedLimit, useDefaultLimit, unlimited.
  by rewrite Hl, Hflag.
Qed.

(** X15: limit 0 when unlimited results are switched off.  [findPaged]
    takes the default limit: it fetches with the default plus one.
    [aggregatePaged] assigns the default limit too, but its pipeline is
    capped at 1, the limit 0 as passed plus one. *)
Theorem zero_limit_when_capped o q proj pop stages cq match_ (w : World) :
  limit o = Some (JNum 0) ->
  pluginFlag pluginOptions dontAllowUnlimitedResults = true ->
  let dl := defaultLimitOf pluginOptions in
  generateCursorQuery (setLimit dl o) = Ok cq ->
  generateCursorQuery o = Ok match_ ->
  (exists counts,
     events (snd (findPaged pluginOptions o q proj pop w)) =
       (events w ++
        [EvSetLimit dl;
         EvStore (ReqFind {| andCursor := cq; andBase := default emptyFilter q |}
                    proj (generateSort o) (succ dl) (default noPopulate pop))] ++
        counts)%list) /\
  (exists pipeline,
     events (snd (aggregatePaged pluginOptions o (Some stages) w)) =
       (events w ++ [EvSetLimit dl; EvStore (ReqAggregate pipeline)])%list /\
     pipelineCap pipeline = Some (JNum 1)).
Proof.
  intros Hl Hflag dl Hq Hm.
  destruct (zero_capped_assigned _ Hl Hflag) as [Ha Hu]. split.
  - eexists. rewrite (findPaged_events o q proj pop cq); rewrite Ha, ?Hu; done.
  - eexists. split.
    + rewrite (aggregatePaged_events _ _ _ _ Hm), Ha. reflexivity.
    + by rewrite pipelineCap_built, Hu, Hl.
Qed.

Lemma assembled_apart l o t (w w3 : World) :
  l ∉ dom (arrays w) ->
  (forall l', l' <> l -> arrays w3 !! l' = arrays w !! l') ->
  (forall l', l' ∈ dom (arrays w) ->
     arrays (snd (prepareResponse l o t w3)) !! l' = arrays w !! l') /\
  (forall r, fst (prepareResponse l o t w3) = Ok r -> docs r ∉ dom (arrays w)).
Proof.
  intros Hfresh Hsame. split.
  - intros l' Hin. rewrite ResponseFacts.prepareResponse_run. cbn [snd].
    assert (Hne : l' <> l) by (intros ->; done).
    by rewrite (afterPage_arrays_ne _ _ _ _ Hne), Hsame.
  - intros r Hr.
    destruct (prepareResponse l o t w3) as [out w'] eqn:Hrun.
    cbn in Hr. subst out.
    by destruct (ResponseFacts.prepareResponse_Ok _ _ _ _ _ _ Hrun) as (_ & -> & _).
Qed.

(** X16: both operations keep their hands off the caller's heap.  Whatever
    the arguments and the outcome, every array that existed before the call
    is unchanged after it, and the [docs] of a result is an array that did
    not exist before (the store's reply, assembled in place). *)
Theorem operations_spare_the_heap o q proj pop pipeline (w : World) :
  let found := findPaged pluginOptions o q proj pop w in
  let aggregated := aggregatePaged pluginOptions o pipeline w in
  (forall l, l ∈ dom (arrays w) ->
     arrays (snd found) !! l = arrays w !! l /\
     arrays (snd aggregated) !! l = arrays w !! l) /\
  (forall r, fst found = Ok r \/ fst aggregated = Ok r ->
     docs r ∉ dom (arrays w)).
Proof.
  intros found aggregated.
  assert (Hfound :
    (forall l, l ∈ dom (arrays w) -> arrays (snd found) !! l = arrays w !! l) /\
    (forall r, fst found = Ok r -> docs r ∉ dom (arrays w))).
  { subst found. rewrite IndexFacts.findPaged_run. cbv zeta.
    destruct (generateCursorQuery _) as [cq|e]; [|by split].
    destruct (pluginFlag pluginOptions dontReturnTotalDocs);
      apply assembled_apart; try apply (is_fresh (dom (arrays w)));
      intros l' Hne; cbn [setArray logEvent arrays];
      by rewrite lookup_insert_ne. }
  assert (Haggregated :
    (forall l, l ∈ dom (arrays w) -> arrays (snd aggregated) !! l = arrays w !! l) /\
    (forall r, fst aggregated = Ok r -> docs r ∉ dom (arrays w))).
  { subst aggregated.
    destruct (generateCursorQuery o) as [match_|e] eqn:Hq.
    - destruct pipeline as [stages|].
      + rewrite (IndexFacts.aggregatePaged_run _ _ _ _ _ Hq). cbv zeta.
        destruct (pluginFlag pluginOptions dontReturnTotalDocs).
        * unfold assembleFacet, bind, alloc, throw.
          destruct (aggregateFacet _) as [items|facet]; [by split|].
          destruct (totalCount facet) as [|count rest].
          { split; [|done]. intros l Hin. cbn [snd arrays logEvent].
            rewrite lookup_insert_ne; [done|].
            intros <-. by apply (is_fresh (dom (arrays w))). }
          apply assembled_apart; try apply (is_fresh (dom (arrays w)));
            intros l' Hne; cbn [setArray logEvent arrays];
            by rewrite lookup_insert_ne.
        * apply assembled_apart; try apply (is_fresh (dom (arrays w)));
            intros l' Hne; cbn [setArray logEvent arrays];
            by rewrite lookup_insert_ne.
      + unfold aggregatePaged, assignLimit, bind, liftOutcome, emit, ret, throw.
        rewrite Hq. by destruct (pluginFlag pluginOptions dontReturnTotalDocs).
    - unfold aggregatePaged, bind, liftOutcome. rewrite Hq. by split. }
  destruct Hfound as [Hf1 Hf2], Haggregated as [Ha1 Ha2].
  split; [by split; auto | intros r [Hr|Hr]; auto].
Qed.

(** X17: [aggregatePaged] with a positive limit [N].  The pipeline is
    capped at [N + 1].  Without [dontReturnTotalDocs] the plain reply is
    assembled with [N]: the page is the reply without its overflow
    document, reversed for a backward request, [hasNext] is true exactly
    when a before-cursor was supplied or the reply held more than [N]
    documents, and no total is attached.  With [dontReturnTotalDocs] the
    faceted reply is read first: when it is an array (what an aggregate
    resolves to), or a facet document without a count, the call throws a
    [TypeError]; only a facet document with a count is assembled, from its
    [results], with that count as the total. *)
Theorem aggregatePaged_page o stages match_ N (w : World) :
  limit o = Some (JNum N) -> (0 < N)%Z ->
  generateCursorQuery o = Ok match_ ->
  let pipeline := builtPipeline pluginOptions o match_ stages in
  let run := aggregatePaged pluginOptions o (Some stages) w in
  let assembled (B : list Doc) (total : option Z) :=
    forall r w', run = (Ok r, w') ->
      let kept := if (N <? Z.of_nat (length B))%Z then removelast B else B in
      contents w' (docs r) = (if truthyStr (previous o) then rev kept else kept) /\
      (hasNext r = true <->
         supplied (previous o) \/ (N < Z.of_nat (length B))%Z) /\
      totalDocs r = total in
  pipelineCap pipeline = Some (JNum (N + 1)) /\
  (pluginFlag pluginOptions dontReturnTotalDocs = false ->
   assembled (aggregate pipeline) None) /\
  (pluginFlag pluginOptions dontReturnTotalDocs = true ->
   match aggregateFacet pipeline with
   | FacetArray _ => fst run = Throw TypeError
   | FacetDeclared facet =>
       match totalCount facet with
       | [] => fst run = Throw TypeError
       | count :: _ => assembled (results facet) (Some count)
       end
   end).
Proof.
  intros Hl HN Hq pipeline run assembled.
  destruct (IndexFacts.valid_limit_assigned pluginOptions _ _ Hl HN)
    as (Ha & Hu & Ho).
  split.
  { subst pipeline. by rewrite pipelineCap_built, Hu, Hl. }
  assert (Hpage : forall l t B (w0 w' : World) r,
    prepareResponse l o t (setArray l B w0) = (Ok r, w') ->
    let kept := if (N <? Z.of_nat (length B))%Z then removelast B else B in
    contents w' (docs r) = (if truthyStr (previous o) then rev kept else kept) /\
    (hasNext r = true <->
       supplied (previous o) \/ (N < Z.of_nat (length B))%Z) /\
    totalDocs r = t).
  { intros l t B w0 w' r Hrun.
    destruct (ResponseFacts.prepareResponse_Ok _ _ _ _ _ _ Hrun)
      as (-> & -> & _ & -> & -> & _).
    rewrite ResponseFacts.contents_afterPage, ResponseFacts.contents_setArray.
    unfold pageOf, trimmed, flagNext, supplied.
    rewrite (ResponseFacts.hasMoreOf_positive _ _ _ Hl HN).
    by rewrite orb_true_iff, Z.ltb_lt. }
  subst assembled run.
  rewrite (IndexFacts.aggregatePaged_run _ _ _ _ _ Hq).
  cbv zeta. rewrite Ha, Ho. fold pipeline.
  split; intros Hflag; rewrite Hflag.
  - intros r w'. apply Hpage.
  - unfold assembleFacet, bind, alloc, throw.
    destruct (aggregateFacet pipeline) as [items|facet]; [reflexivity|].
    destruct (totalCount facet) as [|count rest]; [reflexivity|].
    intros r w'. apply Hpage.
Qed.

(** X18: [findPaged] with a positive limit [N].  The fetch is capped at
    [N + 1] and the reply is assembled with [N]: the page is the reply
    without its overflow document, reversed for a backward request;
    [hasNext] is true exactly when a before-cursor was supplied or the reply
    held more than [N] documents, and [hasPrevious] exactly when an
    after-cursor was supplied, or a before-cursor and the reply held more
    than [N]. *)
Theorem findPaged_page o q proj pop cq N (w : World) :
  limit o = Some (JNum N) -> (0 < N)%Z ->
  generateCursorQuery o = Ok cq ->
  let query := {| andCursor := cq; andBase := default emptyFilter q |} in
  let fetch :=
    ReqFind query proj (generateSort o) (JNum (N + 1)) (default noPopulate pop) in
  let B := find query proj (generateSort o) (JNum (N + 1)) (default noPopulate pop) in
  let more := (N < Z.of_nat (length B))%Z in
  let kept := if (N <? Z.of_nat (length B))%Z then removelast B else B in
  In (EvStore fetch) (events (snd (findPaged pluginOptions o q proj pop w))) /\
  (forall r w',
     findPaged pluginOptions o q proj pop w = (Ok r, w') ->
     contents w' (docs r) = (if truthyStr (previous o) then rev kept else kept) /\
     (hasNext r = true <-> supplied (previous o) \/ more) /\
     (hasPrevious r = true <->
        supplied (next o) \/ (supplied (previous o) /\ more))).
Proof.
  intros Hl HN Hq query fetch B more kept.
  destruct (IndexFacts.valid_limit_assigned pluginOptions _ _ Hl HN)
    as (Ha & Hu & Ho).
  split.
  { rewrite (findPaged_events o q proj pop cq) by (by rewrite Ha, Ho).
    rewrite Ha, Hu. cbn [succ]. rewrite !in_app_iff. cbn. tauto. }
  intros r w'. rewrite IndexFacts.findPaged_run.
  cbv zeta. rewrite Ha, Hu, Ho, Hq. cbn [succ]. fold query. fold B.
  subst more kept.
  destruct (pluginFlag pluginOptions dontReturnTotalDocs); intros Hrun;
    destruct (ResponseFacts.prepareResponse_Ok _ _ _ _ _ _ Hrun)
      as (-> & -> & -> & -> & _);
    rewrite ResponseFacts.contents_afterPage, ?IndexFacts.contents_logEvent,
      ResponseFacts.contents_setArray;
    unfold pageOf, trimmed, flagNext, flagPrevious, supplied;
    rewrite (ResponseFacts.hasMoreOf_positive _ _ _ Hl HN);
    rewrite !orb_true_iff, andb_true_iff, Z.ltb_lt; done.
Qed.

(** X19: a negative, [NaN] or missing limit makes [findPaged] take the
    default limit (10 unless a truthy [defaultLimit] is configured): it
    writes the default to [options.limit], fetches with the default plus
    one, and assembles the reply with the default. *)
Theorem findPaged_takes_default o q proj pop cq (w : World) :
  isNaN (limit o) || ltZero (limit o) = true ->
  let dl := defaultLimitOf pluginOptions in
  generateCursorQuery (setLimit dl o) = Ok cq ->
  let query := {| andCursor := cq; andBase := default emptyFilter q |} in
  let B := find query proj (generateSort o) (succ dl) (default noPopulate pop) in
  let kept := if hasMoreOf B (setLimit dl o) then removelast B else B in
  events (snd (findPaged pluginOptions o q proj pop w)) =
    (events w ++
     [EvSetLimit dl;
      EvStore (ReqFind query proj (generateSort o) (succ dl)
                 (default noPopulate pop))] ++
     (if pluginFlag pluginOptions dontReturnTotalDocs then []
      else [EvStore (ReqCountDocuments q)]))%list /\
  (exists z, dl = Some (JNum z) /\ z <> 0%Z) /\
  (forall r w',
     findPaged pluginOptions o q proj pop w = (Ok r, w') ->
     contents w' (docs r) = (if truthyStr (previous o) then rev kept else kept)).
Proof.
  intros Hbad dl Hq query B kept.
  destruct (IndexFacts.invalid_limit_assigned pluginOptions _ Hbad) as [Ha Hu].
  split; [|split].
  - rewrite (findPaged_events o q proj pop cq) by (by rewrite Ha).
    by rewrite Ha, Hu.
  - subst dl. unfold defaultLimitOf.
    destruct pluginOptions as [p|]; [|by exists 10%Z].
    destruct (defaultLimit p) as [[|z]|] eqn:Hd; cbn; try by exists 10%Z.
    destruct (Z.eqb_spec z 0); cbn; [by exists 10%Z|]. by exists z.
  - intros r w'. rewrite IndexFacts.findPaged_run.
    cbv zeta. rewrite Ha, Hu. fold dl. rewrite Hq. fold query. fold B.
    destruct (pluginFlag pluginOptions dontReturnTotalDocs); intros Hrun;
      destruct (ResponseFacts.prepareResponse_Ok _ _ _ _ _ _ Hrun)
        as (-> & -> & _);
      by rewrite ResponseFacts.contents_afterPage, ?IndexFacts.contents_logEvent,
        ResponseFacts.contents_setArray.
Qed.

End IndexMore.

Import Fixtures MoreFixtures.

Lemma findPaged_requests_witness :
  events (snd (@findPaged plain codec people peopleStore peopleQuery None
                 (request (Some (JNum 2)) None None) None None None noHeap)) =
  [EvSetLimit (Some (JNum 2));
   EvStore (@ReqFind people (@Build_FindQuery people [] []) None byAge (JNum 3) tt);
   EvStore (@ReqCountDocuments people None)].
Proof.
  destruct (@findPaged_requests plain codec people peopleStore peopleQuery None
              (request (Some (JNum 2)) None None) None None None [] noHeap
              eq_refl) as [Hev _].
  etransitivity; [exact Hev | vm_compute; reflexivity].
Defined.

Lemma findPaged_cursor_error_witness :
  @findPaged plain codec people peopleStore strictQuery None
    (request (Some (JNum 2)) (Some "c") None) None None None noHeap =
  (Throw MalformedCursor,
   {| arrays := ∅; events := [EvSetLimit (Some (JNum 2))] |}).
Proof.
  etransitivity;
    [apply (@findPaged_cursor_error plain codec people peopleStore strictQuery None
              (request (Some (JNum 2)) (Some "c") None) None None None
              MalformedCursor noHeap eq_refl)
    | reflexivity].
Defined.

Lemma aggregatePaged_cursor_error_witness :
  @aggregatePaged plain codec people peopleStore strictQuery None
    (request (Some (JNum 2)) (Some "c") None) (Some []) noHeap =
  (Throw MalformedCursor, noHeap).
Proof.
  apply (@aggregatePaged_cursor_error plain codec people peopleStore strictQuery None
           (request (Some (JNum 2)) (Some "c") None) (Some [])
           MalformedCursor noHeap eq_refl).
Defined.

Lemma aggregatePaged_without_pipeline_witness :
  @aggregatePaged plain codec people peopleStore peopleQuery None
    (request (Some (JNum 2)) None None) None noHeap =
  (Throw TypeError,
   {| arrays := ∅; events := [EvSetLimit (Some (JNum 2))] |}).
Proof.
  etransitivity;
    [apply (@aggregatePaged_without_pipeline plain codec people peopleStore
              peopleQuery None (request (Some (JNum 2)) None None) []
              noHeap eq_refl)
    | reflexivity].
Defined.

Lemma aggregatePaged_requests_witness :
  exists pipeline,
    events (snd (@aggregatePaged plain codec people peopleStore peopleQuery None
                   (request (Some (JNum 2)) None None)
                   (Some ["$unwind"]) noHeap)) =
      [EvSetLimit (Some (JNum 2)); EvStore (@ReqAggregate people pipeline)] /\
    firstn 2 pipeline = [@StSort people byAge; @StUser people "$unwind"] /\
    pipelineCap pipeline = Some (JNum 3).
Proof.
  destruct (@aggregatePaged_requests plain codec people peopleStore peopleQuery None
              (request (Some (JNum 2)) None None) ["$unwind"] [] noHeap
              eq_refl) as (pipeline & tail & Hev & Hp & _ & Hcap).
  exists pipeline. split; [exact Hev|]. split; [by rewrite Hp | exact Hcap].
Defined.

Lemma findPaged_first_page_witness :
  exists r w',
    @findPaged plain codec people peopleStore peopleQuery None
      (request (Some (JNum 2)) None None) None None None noHeap = (Ok r, w') /\
    contents w' (docs r) = [ann; bob] /\
    hasPrevious r = false /\ hasNext r = true.
Proof.
  destruct (@findPaged_first_page plain codec people peopleStore peopleQuery None
              (request (Some (JNum 2)) None None) None None None [] 2 noHeap
              eq_refl ltac:(lia) eq_refl eq_refl eq_refl)
    as (r & w' & Hrun & Hpage & Hp & _ & Hn & _).
  exists r, w'. split; [exact Hrun|]. split; [exact Hpage|].
  split; [exact Hp | exact Hn].
Defined.

Lemma zero_limit_when_capped_witness :
  exists pipeline,
    events (snd (@aggregatePaged plain codec people peopleStore peopleQuery
                   (Some capped) (request (Some (JNum 0)) None None)
                   (Some []) noHeap)) =
      [EvSetLimit (Some (JNum 2)); EvStore (@ReqAggregate people pipeline)] /\
    pipelineCap pipeline = Some (JNum 1).
Proof.
  destruct (@zero_limit_when_capped plain codec people peopleStore peopleQuery
              (Some capped) (request (Some (JNum 0)) None None) None None None
              [] [] [] noHeap eq_refl eq_refl eq_refl eq_refl)
    as [_ (pipeline & Hev & Hcap)].
  exists pipeline. split; [exact Hev | exact Hcap].
Defined.

Lemma aggregatePaged_page_witness :
  (exists r w',
     @aggregatePaged plain codec people peopleStore peopleQuery None
       (request (Some (JNum 2)) None None) (Some []) noHeap = (Ok r, w') /\
     contents w' (docs r) = [ann; bob] /\ totalDocs r = None) /\
  fst (@aggregatePaged plain codec people peopleStore peopleQuery
         (Some noTotals) (request (Some (JNum 2)) None None) (Some [])
         noHeap) = Throw TypeError.
Proof.
  split.
  - eexists _, _. split; [vm_compute; reflexivity|].
    destruct (@aggregatePaged_page plain codec people peopleStore peopleQuery
                None (request (Some (JNum 2)) None None) [] [] 2 noHeap
                eq_refl ltac:(lia) eq_refl) as (_ & Hplain & _).
    destruct (Hplain eq_refl _ _ eq_refl) as (Hdocs & _ & Htotal).
    split; [etransitivity; [exact Hdocs | vm_compute; reflexivity]|].
    etransitivity; [exact Htotal | reflexivity].
  - destruct (@aggregatePaged_page plain codec people peopleStore peopleQuery
                (Some noTotals) (request (Some (JNum 2)) None None) [] [] 2
                noHeap eq_refl ltac:(lia) eq_refl) as (_ & _ & Hfaceted).
    exact (Hfaceted eq_refl).
Defined.

Lemma findPaged_page_witness :
  exists r w',
    @findPaged plain codec people peopleStore peopleQuery None
      (request (Some (JNum 2)) (Some "c") None) None None None noHeap =
      (Ok r, w') /\
    contents w' (docs r) = [ann; bob] /\
    hasNext r = true /\ hasPrevious r = true.
Proof.
  eexists _, _. split; [vm_compute; reflexivity|].
  destruct (@findPaged_page plain codec people peopleStore peopleQuery None
              (request (Some (JNum 2)) (Some "c") None) None None None
              ["$or"] 2 noHeap eq_refl ltac:(lia) eq_refl) as [_ Hpage].
  destruct (Hpage _ _ eq_refl) as (Hdocs & Hn & Hp).
  split; [etransitivity; [exact Hdocs | vm_compute; reflexivity]|].
  split; [apply Hn; right; vm_compute; reflexivity | apply Hp; left; reflexivity].
Defined.

Lemma findPaged_takes_default_witness :
  events (snd (@findPaged plain codec people peopleStore peopleQuery None
                 (request (Some JNaN) None None) None None None noHeap)) =
  [EvSetLimit (Some (JNum 10));
   EvStore (@ReqFind people (@Build_FindQuery people [] []) None byAge (JNum 11) tt);
   EvStore (@ReqCountDocuments people None)].
Proof.
  destruct (@findPaged_takes_default plain codec people peopleStore peopleQuery None
              (request (Some JNaN) None None) None None None [] noHeap
              eq_refl eq_refl) as [Hev _].
  etransitivity; [exact Hev | vm_compute; reflexivity].
Defined.

End IndexMore.

(** * Properties of installing the plugin *)

Module InstallFacts.
Section InstallFacts.
Context `{ObjectModel} `{CursorCodec} `{Store} `{!Query}.

(** X20: installing the plugin binds [findPaged] and [aggregatePaged] of
    the schema's statics to the two operations with the given plugin
    options, and leaves every other static as it was; a static that had one
    of the two names is replaced, and installing again with other options
    rebinds both, the later options winning. *)
Theorem plugin_installs (schema : Schema) (po po' : option IPluginOptions) :
  statics (plugin schema po) !! "findPaged" = Some (StaticFind (findPaged po)) /\
  statics (plugin schema po) !! "aggregatePaged" =
    Some (StaticAggregate (aggregatePaged po)) /\
  (forall name, name <> "findPaged" -> name <> "aggregatePaged" ->
     statics (plugin schema po) !! name = statics schema !! name) /\
  plugin (plugin schema po) po' = plugin schema po'.
Proof.
  unfold plugin. cbn [statics]. repeat split.
  - rewrite lookup_insert_ne by done. apply lookup_insert_eq.
  - apply lookup_insert_eq.
  - intros name Hf Ha. by rewrite !lookup_insert_ne.
  - f_equal. apply map_eq. intros name.
    rewrite !lookup_insert. repeat case_decide; congruence.
Qed.

End InstallFacts.
End InstallFacts.
